(** * Schema synchronisation and filter compilation of the koishi database plugins

    A shallow embedding of
    - the MySQL plugin's filter compiler ([createFilter]) and query facade
      ([get], [set], [remove], [create], [upsert]),
    - the SQLite plugin's schema synchroniser ([getColumnDefinitionSQL],
      [syncTable], [start]), and
    - the reconnecting WebSocket client of the adapters ([WsClient]),
    followed by the properties the specification states about them and by
    further properties of the code. *)

From Stdlib Require Import String Ascii List ZArith Bool Lia.
From Stdlib Require Import DecimalString.
From Stdlib Require DecimalFacts DecimalNat.
Import ListNotations.
Open Scope list_scope.
Open Scope string_scope.
Set Warnings "-register-all".

(** ** JavaScript values, as far as the plugins look at them *)
Module JS.

(** A value the plugins receive.  An object is the list of its own enumerable
    properties in [for ... in] order (property names are pairwise distinct);
    the plugins only ask a number for its type and its truthiness, so an
    integer stands for it. *)
Inductive value : Type :=
| VUndefined
| VNull
| VBool (b : bool)
| VNum (n : Z)
| VStr (s : string)
| VDate (time : Z)
| VRegExp (source : string)
| VArr (items : list value)
| VObj (props : list (string * value)).

Definition object : Type := list (string * value).

Inductive error : Type :=
| TypeError (message : string)
| DriverError (message : string).

(** The outcome of a call: a returned value or a thrown error. *)
Inductive result (A : Type) : Type :=
| Ok (a : A)
| Throw (e : error).
Arguments Ok {A} a.
Arguments Throw {A} e.

Definition rbind {A B} (r : result A) (k : A -> result B) : result B :=
  match r with
  | Ok a => k a
  | Throw e => Throw e
  end.

Notation "x <- r ;; k" := (rbind r (fun x => k))
  (at level 61, r at next level, right associativity).

(** [items.map(f)] for an [f] that may throw. *)
Fixpoint map_result {A B} (f : A -> result B) (items : list A) : result (list B) :=
  match items with
  | [] => Ok []
  | x :: rest =>
      match f x with
      | Ok y => match map_result f rest with
                | Ok ys => Ok (y :: ys)
                | Throw e => Throw e
                end
      | Throw e => Throw e
      end
  end.

(** [!!v] *)
Definition truthy (v : value) : bool :=
  match v with
  | VUndefined | VNull => false
  | VBool b => b
  | VNum n => negb (n =? 0)%Z
  | VStr s => negb (s =? "")
  | VDate _ | VRegExp _ | VArr _ | VObj _ => true
  end.

Fixpoint lookup {A} (key : string) (props : list (string * A)) : option A :=
  match props with
  | [] => None
  | (k, v) :: rest => if k =? key then Some v else lookup key rest
  end.

(** [Object.keys(o)] *)
Definition keys {A} (o : list (string * A)) : list string := map fst o.

(** [o[key] = v]: an existing property keeps its place, a new one goes last. *)
Fixpoint assign {A} (key : string) (v : A) (o : list (string * A)) : list (string * A) :=
  match o with
  | [] => [(key, v)]
  | (k, w) :: rest => if k =? key then (k, v) :: rest else (k, w) :: assign key v rest
  end.

(** [{...o1, ...o2}] *)
Definition spread {A} (o1 o2 : list (string * A)) : list (string * A) :=
  fold_left (fun o kv => assign (fst kv) (snd kv) o) o2 o1.

(** [!!v.length]; reading a property of [null] or [undefined] throws. *)
Definition has_length (v : value) : result bool :=
  match v with
  | VUndefined | VNull =>
      Throw (TypeError "Cannot read properties of undefined (reading 'length')")
  | VArr items => Ok (negb (Nat.eqb (List.length items) 0))
  | VStr s => Ok (negb (s =? ""))
  | VObj props =>
      Ok (match lookup "length" props with Some l => truthy l | None => false end)
  | VBool _ | VNum _ | VDate _ | VRegExp _ => Ok false
  end.

(** [v.source] *)
Definition source_of (v : value) : result value :=
  match v with
  | VUndefined | VNull =>
      Throw (TypeError "Cannot read properties of undefined (reading 'source')")
  | VRegExp source => Ok (VStr source)
  | VObj props =>
      Ok (match lookup "source" props with Some s => s | None => VUndefined end)
  | VBool _ | VNum _ | VStr _ | VDate _ | VArr _ => Ok VUndefined
  end.

(** [String(n)] for an index or a count. *)
Definition string_of_nat (n : nat) : string := NilEmpty.string_of_uint (Nat.to_uint n).
Definition string_of_Z (n : Z) : string := NilEmpty.string_of_int (Z.to_int n).

Fixpoint indexed {A} (from : nat) (items : list A) : list (string * A) :=
  match items with
  | [] => []
  | x :: rest => (string_of_nat from, x) :: indexed (S from) rest
  end.

Fixpoint chars (s : string) : list value :=
  match s with
  | EmptyString => []
  | String c rest => VStr (String c EmptyString) :: chars rest
  end.

(** The properties [for (const key in v)] visits, with [v[key]]: the own
    properties of an object, the indices of an array or of a string, and
    nothing for the other values. *)
Definition for_in (v : value) : object :=
  match v with
  | VObj props => props
  | VArr items => indexed 0 items
  | VStr s => indexed 0 (chars s)
  | VUndefined | VNull | VBool _ | VNum _ | VDate _ | VRegExp _ => []
  end.

End JS.
Import JS.

(** ** Calls that change a state and may throw *)
Module Eff.

(** A call on a state [S]: its outcome and the state it leaves.  A thrown
    error keeps what was done before it. *)
Definition M (S A : Type) : Type := S -> result A * S.

Definition ret {S A} (a : A) : M S A := fun s => (Ok a, s).

Definition bind {S A B} (c : M S A) (k : A -> M S B) : M S B :=
  fun s => match c s with
           | (Ok a, s') => k a s'
           | (Throw e, s') => (Throw e, s')
           end.

Definition lift {S A} (r : result A) : M S A := fun s => (r, s).

Notation "'do' x <- c ; k" := (bind c (fun x => k))
  (at level 10, x name, c at level 100, k at level 200).

(** [for (const x of items) body(x)] *)
Fixpoint for_of {S A} (items : list A) (body : A -> M S unit) : M S unit :=
  match items with
  | [] => ret tt
  | x :: rest => do _ <- body x; for_of rest body
  end.

(** [items.map(f)] for an [f] with effects *)
Fixpoint map_of {S A B} (items : list A) (f : A -> M S B) : M S (list B) :=
  match items with
  | [] => ret []
  | x :: rest => do y <- f x; do ys <- map_of rest f; ret (y :: ys)
  end.

End Eff.
Import Eff.

(** ** The table registry of the core, [Tables.config] *)
Module Tables.

(** Modelled from the spec: the types of [Tables] belong to the core, of
    which the plugins only see the declarations; these are the field types
    the spec lists for a Field Spec. *)
Inductive FieldType : Type :=
| integer | unsigned | float | double | decimal
| char | string_ | text | list_ | json
| date | time | timestamp.

(** Modelled from the spec: [Tables.Field], the Field Spec.  A missing
    [initial] is [VUndefined], a missing [nullable] or [length] is [None]. *)
Record Field : Type := {
  type : FieldType;
  initial : value;
  nullable : option bool;
  length : option Z
}.

(** Modelled from the spec: what [primary] and an entry of [unique] are, one
    field name or an ordered set of field names. *)
Inductive Keys : Type :=
| One (key : string)
| Many (keys : list string).

(** Modelled from the spec: [makeArray] of the core's utilities, which
    turns the one field name into a list of one. *)
Definition makeArray (k : Keys) : list string :=
  match k with
  | One key => [key]
  | Many keys => keys
  end.

(** [!!keys] *)
Definition given (k : Keys) : bool :=
  match k with
  | One key => negb (key =? "")
  | Many _ => true
  end.

(** Modelled from the spec: [Tables.Config], the Table Config. *)
Record Config : Type := {
  fields : list (string * Field);
  primary : Keys;
  autoInc : bool;
  unique : list Keys;
  foreign : list (string * (string * string))
}.

(** [Tables.config]: one shared object for the whole process. *)
Definition Registry : Type := list (string * Config).

End Tables.

(** ** The MySQL plugin: filter compiler and query facade *)
Module Mysql.

(** An element of the [conditions] array: a string, or another value, of
    which only the text that [join] gives it matters ([includes('0')]
    compares with [===] and so never finds such a value). *)
Inductive cond : Type :=
| CStr (s : string)
| CVal (text : string).

Definition text (c : cond) : string :=
  match c with
  | CStr s => s
  | CVal t => t
  end.

Definition is_zero (c : cond) : bool :=
  match c with
  | CStr s => s =? "0"
  | CVal _ => false
  end.

(** What one turn of the [for (const key in query)] loop does next. *)
Inductive control : Type :=
| Continue (conditions : list cond)
| Return (filter : string)
| Raise (e : error).

Definition dquote : string := String (ascii_of_nat 34) EmptyString.

Section Filter.

(** [escapeId] and [escape] of the mysql driver, and [Query.resolve] of the
    core: none of them is part of the plugin. *)
Variable escapeId : string -> string.
Variable escape : value -> string.
Variable resolve : string -> value -> value.

Definition createMemberQuery (key : string) (value : value) (notStr : string)
  : result string :=
  len <- has_length value ;;
  if negb len then Ok (if negb (notStr =? "") then "1" else "0")
  else match value with
       | VArr items =>
           Ok (key ++ notStr ++ " IN (" ++ String.concat ", " (map escape items) ++ ")")
       | _ => Throw (TypeError "value.map is not a function")
       end.

Definition createRegExpQuery (key : string) (value : value) : result string :=
  source <- source_of value ;;
  Ok (key ++ " REGEXP " ++ escape source).

Definition createElementQuery (key : string) (value : value) : string :=
  "FIND_IN_SET(" ++ escape value ++ ", " ++ key ++ ")".

Definition comparator (operator : string) (key : string) (value : value) : string :=
  key ++ " " ++ operator ++ " " ++ escape value.

Definition createEqualQuery := comparator "=".

(** The own properties of [queryOperators]. *)
Definition ownOperator (prop : string) : option (string -> value -> result string) :=
  if prop =? "$in" then Some (fun key value => createMemberQuery key value "")
  else if prop =? "$nin" then Some (fun key value => createMemberQuery key value " NOT")
  else if prop =? "$eq" then Some (fun key value => Ok (createEqualQuery key value))
  else if prop =? "$ne" then Some (fun key value => Ok (comparator "!=" key value))
  else if prop =? "$gt" then Some (fun key value => Ok (comparator ">" key value))
  else if prop =? "$gte" then Some (fun key value => Ok (comparator ">=" key value))
  else if prop =? "$lt" then Some (fun key value => Ok (comparator "<" key value))
  else if prop =? "$lte" then Some (fun key value => Ok (comparator "<=" key value))
  else if prop =? "$regex" then Some createRegExpQuery
  else if prop =? "$regexFor" then
    Some (fun key value => Ok (escape value ++ " REGEXP " ++ key))
  else if prop =? "$el" then
    Some (fun key value =>
      match value with
      | VArr items =>
          Ok ("(" ++ String.concat " || " (map (createElementQuery key) items) ++ ")")
      | VNum _ | VStr _ => Ok (createElementQuery key value)
      | _ => Throw (TypeError "query expr under $el is not supported")
      end)
  else if prop =? "$size" then
    Some (fun key value =>
      if negb (truthy value) then Ok ("!" ++ key)
      else Ok (key ++ " && LENGTH(" ++ key ++ ") - LENGTH(REPLACE(" ++ key ++ ", "
               ++ dquote ++ "," ++ dquote ++ ", " ++ dquote ++ dquote ++ ")) = "
               ++ escape value ++ " - 1"))
  else if prop =? "$bitsAllSet" then
    Some (fun key value => Ok (key ++ " & " ++ escape value ++ " = " ++ escape value))
  else if prop =? "$bitsAllClear" then
    Some (fun key value => Ok (key ++ " & " ++ escape value ++ " = 0"))
  else if prop =? "$bitsAnySet" then
    Some (fun key value => Ok (key ++ " & " ++ escape value ++ " != 0"))
  else if prop =? "$bitsAnyClear" then
    Some (fun key value => Ok (key ++ " & " ++ escape value ++ " != " ++ escape value))
  else None.

Definition isOwn (prop : string) : bool :=
  match ownOperator prop with
  | Some _ => true
  | None => false
  end.

(** [queryOperators] is an object literal, so [prop in queryOperators] also
    holds for the members of [Object.prototype], and
    [queryOperators[prop](escKey, operand)] then runs the built-in on
    [queryOperators]: what it leaves in [conditions], or that it throws.
    No operand of the model is callable. *)
Definition inheritedMember (prop : string) : option (string -> value -> result cond) :=
  if (prop =? "toString") || (prop =? "toLocaleString") then
    Some (fun _ _ => Ok (CStr "[object Object]"))
  else if prop =? "valueOf" then
    Some (fun _ _ => Ok (CVal "[object Object]"))
  else if (prop =? "hasOwnProperty") || (prop =? "propertyIsEnumerable") then
    Some (fun key _ => Ok (CVal (if isOwn key then "true" else "false")))
  else if prop =? "isPrototypeOf" then
    Some (fun _ _ => Ok (CVal "false"))
  else if prop =? "constructor" then
    Some (fun key _ => Ok (CVal key))
  else if (prop =? "__defineGetter__") || (prop =? "__defineSetter__") then
    Some (fun _ _ => Throw (TypeError "Object.prototype.__defineGetter__: Expecting function"))
  else if prop =? "__lookupGetter__" then
    Some (fun key _ =>
      Ok (CVal (if key =? "__proto__"
                then "function get __proto__() { [native code] }" else "")))
  else if prop =? "__lookupSetter__" then
    Some (fun key _ =>
      Ok (CVal (if key =? "__proto__"
                then "function set __proto__() { [native code] }" else "")))
  else if prop =? "__proto__" then
    Some (fun _ _ => Throw (TypeError "queryOperators[prop] is not a function"))
  else None.

(** [prop in queryOperators], with what [queryOperators[prop]] does when
    it is called. *)
Definition queryOperators (prop : string) : option (string -> value -> result cond) :=
  match ownOperator prop with
  | Some operator =>
      Some (fun key value => condition <- operator key value ;; Ok (CStr condition))
  | None => inheritedMember prop
  end.

(** The [for (const prop in value)] loop of a query expression: the
    conditions it pushes. *)
Fixpoint queryExpression (escKey : string) (props : object) : result (list cond) :=
  match props with
  | [] => Ok []
  | (prop, operand) :: rest =>
      match queryOperators prop with
      | Some operator =>
          condition <- operator escKey operand ;;
          more <- queryExpression escKey rest ;;
          Ok (condition :: more)
      | None => queryExpression escKey rest
      end
  end.

(** The part of the loop body below [// query shorthand]. *)
Definition fieldQuery (key : string) (value : value) : result (list cond) :=
  let escKey := escapeId key in
  match value with
  | VArr _ => condition <- createMemberQuery escKey value "" ;; Ok [CStr condition]
  | VRegExp _ => condition <- createRegExpQuery escKey value ;; Ok [CStr condition]
  | VStr _ | VNum _ | VDate _ => Ok [CStr (createEqualQuery escKey value)]
  | VUndefined | VNull | VBool _ | VObj _ => queryExpression escKey (for_in value)
  end.

(** The three lines that end [parseQuery]. *)
Definition conjunction (conditions : list cond) : string :=
  match conditions with
  | [] => "1"
  | _ => if existsb is_zero conditions then "0"
         else String.concat " && " (map text conditions)
  end.

(** One turn of the loop: [value] is [query[key]], [parse] the recursive
    call. *)
Definition visit (parse : value -> result string)
  (key : string) (value : value) (conditions : list cond) : control :=
  if key =? "$not" then
    match parse value with
    | Ok sub => Continue (conditions ++ [CStr ("!(" ++ sub ++ ")")])%list
    | Throw e => Raise e
    end
  else if key =? "$and" then
    match has_length value with
    | Throw e => Raise e
    | Ok false => Return "0"
    | Ok true =>
        match value with
        | VArr items =>
            match map_result parse items with
            | Ok subs => Continue (conditions ++ map CStr subs)%list
            | Throw e => Raise e
            end
        | _ => Raise (TypeError "query.$and.map is not a function")
        end
    end
  else
    match (if key =? "$or" then has_length value else Ok false) with
    | Throw e => Raise e
    | Ok true =>
        match value with
        | VArr items =>
            match map_result parse items with
            | Ok subs =>
                Continue (conditions ++ [CStr ("(" ++ String.concat " || " subs ++ ")")])%list
            | Throw e => Raise e
            end
        | _ => Raise (TypeError "query.$or.map is not a function")
        end
    | Ok false =>
        match fieldQuery key value with
        | Ok pushed => Continue (conditions ++ pushed)%list
        | Throw e => Raise e
        end
    end.

Fixpoint loop (parse : value -> result string)
  (props : object) (conditions : list cond) : result string :=
  match props with
  | [] => Ok (conjunction conditions)
  | (key, value) :: rest =>
      match visit parse key value conditions with
      | Continue conditions' => loop parse rest conditions'
      | Return filter => Ok filter
      | Raise e => Throw e
      end
  end.

(** The indices of an array or of a string are never [$not], [$and] or
    [$or], so the loop over them makes no recursive call. *)
Fixpoint parseQuery (query : value) : result string :=
  match query with
  | VObj props => loop parseQuery props []
  | _ => loop (fun _ => Ok "1") (for_in query) []
  end.

Definition createFilter (name : string) (query : value) : result string :=
  parseQuery (resolve name query).

End Filter.

(** [Query.resolve] hands back a query that is an expression object
    already; only the shorthands (a bare value, a list, a pattern) are
    wrapped by it. *)
Definition keepsExpression (resolve : string -> value -> value) : Prop :=
  forall name props, resolve name (VObj props) = VObj props.

(** The operand shapes [$el] accepts: an array, a number, a string. *)
Definition elementShape (operand : value) : bool :=
  match operand with
  | VArr _ | VNum _ | VStr _ => true
  | _ => false
  end.

(** The keys of a logical expression. *)
Definition logical (key : string) : bool :=
  (key =? "$not") || (key =? "$and") || (key =? "$or").

(** The loop over the entries [before] runs to its end: none of them is an
    [$and] with an empty list, at which [parseQuery] returns at once. *)
Definition passes (before : object) : Prop :=
  forall value, In ("$and", value) before -> has_length value <> Ok false.

(** An expression in which [parseQuery] gets to an [$el] whose operand has
    none of the accepted shapes: in the operator map of a field, or in an
    expression under [$not], [$and] or [$or], behind entries that the loop
    passes. *)
Inductive reachesBadElement : value -> Prop :=
| bad_field before key operators operand more after :
    passes before ->
    logical key = false ->
    elementShape operand = false ->
    reachesBadElement
      (VObj (before ++ (key, VObj (operators ++ ("$el", operand) :: more)) :: after))
| bad_not before query after :
    passes before ->
    reachesBadElement query ->
    reachesBadElement (VObj (before ++ ("$not", query) :: after))
| bad_and before earlier query later after :
    passes before ->
    reachesBadElement query ->
    reachesBadElement
      (VObj (before ++ ("$and", VArr (earlier ++ query :: later)) :: after))
| bad_or before earlier query later after :
    passes before ->
    reachesBadElement query ->
    reachesBadElement
      (VObj (before ++ ("$or", VArr (earlier ++ query :: later)) :: after)).

(** The operator names of the filter language. *)
Definition operatorNames : list string :=
  ["$in"; "$nin"; "$eq"; "$ne"; "$gt"; "$gte"; "$lt"; "$lte"; "$regex"; "$regexFor";
   "$el"; "$size"; "$bitsAllSet"; "$bitsAllClear"; "$bitsAnySet"; "$bitsAnyClear"].

(** The members of [Object.prototype], which every object literal
    inherits. *)
Definition prototypeNames : list string :=
  ["toString"; "toLocaleString"; "valueOf"; "hasOwnProperty"; "propertyIsEnumerable";
   "isPrototypeOf"; "constructor"; "__defineGetter__"; "__defineSetter__";
   "__lookupGetter__"; "__lookupSetter__"; "__proto__"].

(** An operand of the shape its operator reads: a list under [$in] and
    [$nin], a pattern under [$regex], an accepted element under [$el], any
    operand under another operator.  A property that is no operator may be
    anything but a member of the prototype. *)
Definition operandShape (prop : string) (operand : value) : bool :=
  if (prop =? "$in") || (prop =? "$nin") then
    match operand with VArr _ => true | _ => false end
  else if prop =? "$regex" then
    match operand with VRegExp _ => true | _ => false end
  else if prop =? "$el" then elementShape operand
  else negb (existsb (String.eqb prop) prototypeNames).

(** What stands under a field: a shorthand, or operators with operands of
    their shapes. *)
Definition fieldShape (value : value) : bool :=
  match value with
  | VObj operators =>
      forallb (fun entry => operandShape (fst entry) (snd entry)) operators
  | _ => true
  end.

Definition entryShape (shape : value -> bool) (entry : string * value) : bool :=
  if fst entry =? "$not" then shape (snd entry)
  else if (fst entry =? "$and") || (fst entry =? "$or") then
    match snd entry with
    | VArr items => forallb shape items
    | _ => false
    end
  else fieldShape (snd entry).

Fixpoint shapes (shape : value -> bool) (props : object) : bool :=
  match props with
  | [] => true
  | entry :: rest => entryShape shape entry && shapes shape rest
  end.

(** An expression of the filter language: an object with expressions under
    [$not], lists of expressions under [$and] and [$or], and fields. *)
Fixpoint wellShaped (query : value) : bool :=
  match query with
  | VObj props => shapes wellShaped props
  | _ => false
  end.

(** *** The query facade *)

(** Modelled from the spec: what [Query.resolveModifier(modifier)] of the
    core returns, as far as [get] reads it; a missing [limit] or [offset] is
    [None]. *)
Record Modifier : Type := {
  mfields : value;
  limit : option Z;
  offset : option Z
}.

Definition positive (n : option Z) : bool :=
  match n with
  | Some n => negb (n =? 0)%Z
  | None => false
  end.

Definition number (n : option Z) : string :=
  match n with
  | Some n => string_of_Z n
  | None => "undefined"
  end.

Definition newline : string := String (ascii_of_nat 10) EmptyString.

(** Modelled from the spec: [difference] of the core's utilities, which is
    not part of the plugin; [upsert] uses it for the fields that are not
    conflict keys (the spec: every non-key field). *)
Definition difference (fields keys : list string) : list string :=
  filter (fun field => negb (existsb (String.eqb field) keys)) fields.

(** Two rows with the same properties in the same order, whose values
    differ at most where [defaults] has a property. *)
Definition sameOutside (defaults item item' : object) : Prop :=
  Forall2 (fun given given' =>
             fst given = fst given'
             /\ (snd given = snd given' \/ In (fst given) (keys defaults)))
          item item'.

Section Facade.

Variable escapeId : string -> string.
Variable escape : value -> string.
Variable resolve : string -> value -> value.

(** The MySQL server behind [this.query]: what a statement with its
    values returns, and the server afterwards. *)
Variable server : Type.
Variable execute : string -> list value -> server -> result value * server.

(** Members of [MysqlDatabase] and of the core that the facade calls. *)
Variable resolveModifier : value -> Modifier.
Variable inferFields : string -> value -> list string.
Variable joinKeys : list string -> string.
Variable formatValues : string -> object -> list string -> list value.
Variable Tables_create : string -> object.
Variable Tables_config : Tables.Registry.

(** The database instance: the server and the statements sent to it so
    far, oldest first. *)
Record Database : Type := {
  db : server;
  sent : list (string * list value)
}.

(** [this.query(sql, values)] *)
Definition query (sql : string) (values : list value) : M Database value :=
  fun this =>
    let (answer, db') := execute sql values (db this) in
    (answer, {| db := db'; sent := (sent this ++ [(sql, values)])%list |}).

Definition get (name : string) (q modifier : value) : M Database value :=
  do filter <- lift (createFilter escapeId escape resolve name q);
  if filter =? "0" then ret (VArr [])
  else
    let m := resolveModifier modifier in
    let keys := joinKeys (inferFields name (mfields m)) in
    let sql := "SELECT " ++ keys ++ " FROM " ++ name ++ " _" ++ name
               ++ " WHERE " ++ filter in
    let sql := if positive (limit m) then sql ++ " LIMIT " ++ number (limit m) else sql in
    let sql := if positive (offset m) then sql ++ " OFFSET " ++ number (offset m) else sql in
    query sql [].

Definition assignment (key : string) : string :=
  let key := escapeId key in
  key ++ " = VALUES(" ++ key ++ ")".

Definition set (name : string) (q : value) (data : object) : M Database value :=
  do filter <- lift (createFilter escapeId escape resolve name q);
  if filter =? "0" then ret VUndefined
  else
    let keys := keys data in
    let update := String.concat ", " (map assignment keys) in
    do _ <- query ("UPDATE " ++ name ++ " SET " ++ update) [];
    ret VUndefined.

Definition remove (name : string) (q : value) : M Database value :=
  do filter <- lift (createFilter escapeId escape resolve name q);
  if filter =? "0" then ret VUndefined
  else
    do _ <- query ("DELETE FROM ?? WHERE " ++ filter) [VStr name];
    ret VUndefined.

(** [Koishi.Tables.config[name].primary] *)
Definition primaryOf (name : string) : result Tables.Keys :=
  match lookup name Tables_config with
  | Some config => Ok (Tables.primary config)
  | None => Throw (TypeError "Cannot read properties of undefined (reading 'primary')")
  end.

(** [keys || Koishi.Tables.config[name].primary] *)
Definition conflictKeys (name : string) (keys : option Tables.Keys) : result Tables.Keys :=
  match keys with
  | Some k => if Tables.given k then Ok k else primaryOf name
  | None => primaryOf name
  end.

Definition upsert (name : string) (data : list object) (keys : option Tables.Keys)
  : M Database value :=
  match data with
  | [] => ret VUndefined
  | _ :: _ =>
      let data := map (fun item => spread item (Tables_create name)) data in
      do keys <- lift (conflictKeys name keys);
      let keys := Tables.makeArray keys in
      let fields := JS.keys (hd [] data) in
      let placeholder := "(" ++ String.concat ", " (map (fun _ => "?") fields) ++ ")" in
      let update := String.concat ", " (map assignment (difference fields keys)) in
      do _ <- query
        ("INSERT INTO " ++ escapeId name ++ " (" ++ joinKeys fields ++ ") VALUES "
         ++ String.concat ", " (map (fun _ => placeholder) data) ++ newline
         ++ "      ON DUPLICATE KEY UPDATE " ++ update)
        (List.concat (map (fun data => formatValues name data fields) data));
      ret VUndefined
  end.

(** [header.insertId] *)
Definition insertId (header : value) : result value :=
  match header with
  | VUndefined | VNull =>
      Throw (TypeError "Cannot read properties of undefined (reading 'insertId')")
  | VObj props =>
      Ok (match lookup "insertId" props with Some v => v | None => VUndefined end)
  | VBool _ | VNum _ | VStr _ | VDate _ | VRegExp _ | VArr _ => Ok VUndefined
  end.

Definition create (name : string) (data : object) : M Database value :=
  let data := spread (Tables_create name) data in
  let keys := keys data in
  do header <- query
    ("INSERT INTO ?? (" ++ joinKeys keys ++ ") VALUES ("
     ++ String.concat ", " (map (fun _ => "?") keys) ++ ")")
    (VStr name :: formatValues name data keys);
  do id <- lift (insertId header);
  ret (VObj (assign "id" id data)).

End Facade.

Arguments db {server} _.
Arguments sent {server} _.
Arguments query {server} execute sql values _.
Arguments get escapeId escape resolve {server} execute resolveModifier inferFields
  joinKeys name q modifier _.
Arguments set escapeId escape resolve {server} execute name q data _.
Arguments remove escapeId escape resolve {server} execute name q _.
Arguments upsert escapeId {server} execute joinKeys formatValues Tables_create
  Tables_config name data keys _.
Arguments create {server} execute joinKeys formatValues Tables_create name data _.

End Mysql.

(** ** The SQLite plugin: schema synchroniser *)
Module Sqlite.

Definition getTypeDefinition (field : Tables.Field) : string :=
  match Tables.type field with
  | Tables.integer | Tables.unsigned | Tables.date | Tables.time | Tables.timestamp =>
      "INTEGER"
  | Tables.float | Tables.double | Tables.decimal => "REAL"
  | Tables.char | Tables.string_ | Tables.text | Tables.list_ | Tables.json => "TEXT"
  end.

(** A row of [PRAGMA table_info]. *)
Record ISqliteFieldInfo : Type := {
  name : string;
  type : string;
  notnull : Z;
  dflt_value : string;
  pk : bool
}.

Record Bot : Type := { platform : string }.

(** A statement handed to [this.run]: [sql] below is its text, the
    constructor and the names are what the database file makes of it. *)
Inductive Statement : Type :=
| AddColumn (table key def : string)
| DropColumn (table key : string)
| CreateTable (table : string) (columns defs constraints : list string).

(** [initial === undefined || initial === null] *)
Definition nullish (v : value) : bool :=
  match v with
  | VUndefined | VNull => true
  | _ => false
  end.

(** [new Set(items)], in insertion order *)
Fixpoint Set_ (items : list string) : list string :=
  match items with
  | [] => []
  | x :: rest => x :: filter (fun y => negb (y =? x)) (Set_ rest)
  end.

(** [keys.includes(key)] *)
Definition includes (keys : list string) (key : string) : bool :=
  existsb (fun k => k =? key) keys.

(** [info.some(({ name }) => name === key)] *)
Definition some_named (info : list ISqliteFieldInfo) (key : string) : bool :=
  existsb (fun row => name row =? key) info.

(** [{ type: 'string', length: 63 }] *)
Definition platformField : Tables.Field :=
  {| Tables.type := Tables.string_; Tables.initial := VUndefined;
     Tables.nullable := None; Tables.length := Some 63%Z |}.

(** [config] after [config.fields[platform] = { type: 'string', length: 63 }]
    and [config.unique.push(platform)]. *)
Definition withPlatform (config : Tables.Config) (platform : string) : Tables.Config :=
  {| Tables.fields := assign platform platformField (Tables.fields config);
     Tables.primary := Tables.primary config;
     Tables.autoInc := Tables.autoInc config;
     Tables.unique := (Tables.unique config ++ [Tables.One platform])%list;
     Tables.foreign := Tables.foreign config |}.

(** Which statement touches which column. *)
Definition isAdd (key : string) (s : Statement) : bool :=
  match s with
  | AddColumn _ k _ => k =? key
  | _ => false
  end.

Definition isDrop (key : string) (s : Statement) : bool :=
  match s with
  | DropColumn _ k => k =? key
  | _ => false
  end.

(** How often a statement of the kind [which] occurs. *)
Definition count (which : Statement -> bool) (statements : list Statement) : nat :=
  List.length (filter which statements).

Section Synchroniser.

(** [queryHelper] and [caster] of the plugin's utilities. *)
Variable escapeId : string -> string.
Variable escape : value -> string.
Variable TableCaster : Type.
Variable createTableCaster : Tables.Registry -> string -> TableCaster.
Variable dump : TableCaster -> object -> object.

(** The database file behind [this.db]: its answer to [PRAGMA table_info],
    and what a statement makes of it, if it accepts the statement. *)
Variable file : Type.
Variable tableInfo : file -> string -> list ISqliteFieldInfo.
Variable execute : Statement -> file -> option file.

(** [this.app.bots] *)
Variable bots : list Bot.

Definition sql (s : Statement) : string :=
  match s with
  | AddColumn table _ def =>
      "ALTER TABLE " ++ escapeId table ++ " ADD COLUMN " ++ def
  | DropColumn table key =>
      "ALTER TABLE " ++ escapeId table ++ " DROP COLUMN " ++ escapeId key
  | CreateTable table _ defs constraints =>
      "CREATE TABLE " ++ escapeId table ++ " ("
      ++ String.concat "," (defs ++ constraints)%list ++ ")"
  end.

(** The shared registry, the instance, and the statements [run] was given
    so far, oldest first. *)
Record World : Type := {
  Tables_config : Tables.Registry;
  dbAdapters : list (string * TableCaster);
  db : file;
  ran : list Statement
}.

(** [getColumnDefinitionSQL] reads the shared registry, here its first
    argument. *)
Definition getColumnDefinitionSQL (Tables_config : Tables.Registry)
  (table key : string) (adapter : TableCaster) : result string :=
  match lookup table Tables_config with
  | None => Throw (TypeError "Cannot read properties of undefined (reading 'fields')")
  | Some config =>
      match lookup key (Tables.fields config) with
      | None => Throw (TypeError "Cannot destructure 'config.fields[key]'")
      | Some field =>
          let initial := Tables.initial field in
          let nullable := match Tables.nullable field with
                          | Some b => b
                          | None => nullish initial
                          end in
          let def := escapeId key in
          let primary := match Tables.primary config with
                         | Tables.One p => key =? p
                         | Tables.Many _ => false
                         end in
          if primary && Tables.autoInc config then
            Ok (def ++ " INTEGER NOT NULL PRIMARY KEY AUTOINCREMENT")
          else
            let typedef := getTypeDefinition field in
            let def := def ++ " " ++ typedef ++ (if nullable then " " else " NOT ")
                       ++ "NULL" in
            if negb (nullish initial) then
              let dumped := match lookup key (dump adapter [(key, initial)]) with
                            | Some v => v
                            | None => VUndefined
                            end in
              Ok (def ++ " DEFAULT " ++ escape dumped)
            else Ok def
      end
  end.

(** [this.run(sql)]: the statement is logged, then executed. *)
Definition run (s : Statement) : M World unit :=
  fun w =>
    match execute s (db w) with
    | Some db' =>
        (Ok tt, {| Tables_config := Tables_config w; dbAdapters := dbAdapters w;
                   db := db'; ran := (ran w ++ [s])%list |})
    | None =>
        (Throw (DriverError (sql s)),
         {| Tables_config := Tables_config w; dbAdapters := dbAdapters w;
            db := db w; ran := (ran w ++ [s])%list |})
    end.

Definition _joinKeys (keys : list string) : string :=
  String.concat "," (map escapeId keys).

(** [this.dbAdapters[table] = adapter] *)
Definition setAdapter (table : string) (adapter : TableCaster) : M World unit :=
  fun w =>
    (Ok tt, {| Tables_config := Tables_config w;
               dbAdapters := assign table adapter (dbAdapters w);
               db := db w; ran := ran w |}).

(** [config.fields[platform] = { type: 'string', length: 63 }] and
    [config.unique.push(platform)], on the shared config of [table]. *)
Definition registerPlatform (table platform : string) : M World unit :=
  fun w =>
    match lookup table (Tables_config w) with
    | None => (Throw (TypeError "Cannot read properties of undefined (reading 'fields')"), w)
    | Some config =>
        (Ok tt, {| Tables_config := assign table (withPlatform config platform)
                                           (Tables_config w);
                   dbAdapters := dbAdapters w; db := db w; ran := ran w |})
    end.

(** [Tables.config[table]], when its properties are read. *)
Definition theConfig (table : string) : M World Tables.Config :=
  fun w =>
    match lookup table (Tables_config w) with
    | Some config => (Ok config, w)
    | None => (Throw (TypeError "Cannot read properties of undefined (reading 'fields')"), w)
    end.

Definition foreignKey (entry : string * (string * string)) : string :=
  let '(key, (table, key2)) := entry in
  "FOREIGN KEY (" ++ escapeId key ++ ")"
  ++ String (ascii_of_nat 10) "              REFERENCES "
  ++ escapeId table ++ " (" ++ escapeId key2 ++ ")".

Definition uniqueKey (keys : Tables.Keys) : string :=
  "UNIQUE (" ++ _joinKeys (Tables.makeArray keys) ++ ")".

(** The constraints of the [CREATE TABLE] statement. *)
Definition constraintsOf (config : Tables.Config) : list string :=
  let primary :=
    if Tables.given (Tables.primary config) && negb (Tables.autoInc config)
    then ["PRIMARY KEY (" ++ _joinKeys (Tables.makeArray (Tables.primary config)) ++ ")"]
    else [] in
  let unique := map uniqueKey (Tables.unique config) in
  let foreign := map foreignKey (Tables.foreign config) in
  (primary ++ unique ++ foreign)%list.

(** The body of the [for (const key of allKeys)] loop. *)
Definition alter (table : string) (adapter : TableCaster)
  (keys : list string) (info : list ISqliteFieldInfo) (key : string) : M World unit :=
  if includes keys key && some_named info key then ret tt
  else if includes keys key then
    do def <- (fun w => (getColumnDefinitionSQL (Tables_config w) table key adapter, w));
    run (AddColumn table key def)
  else
    run (DropColumn table key).

Definition syncTable (table : string) : M World unit :=
  do adapter <- (fun w => (Ok (createTableCaster (Tables_config w) table), w));
  do _ <- setAdapter table adapter;
  do info <- (fun w => (Ok (tableInfo (db w) table), w));
  do _ <- (if table =? "user"
           then for_of (Set_ (map platform bots)) (registerPlatform table)
           else ret tt);
  do config <- theConfig table;
  let keys := keys (Tables.fields config) in
  match info with
  | _ :: _ =>
      let allKeys := (keys ++ map name info)%list in
      for_of allKeys (alter table adapter keys info)
  | [] =>
      do defs <- map_of keys (fun key w =>
                   (getColumnDefinitionSQL (Tables_config w) table key adapter, w));
      run (CreateTable table keys defs (constraintsOf config))
  end.

End Synchroniser.

Arguments Tables_config {TableCaster file} _.
Arguments dbAdapters {TableCaster file} _.
Arguments db {TableCaster file} _.
Arguments ran {TableCaster file} _.
Arguments getColumnDefinitionSQL escapeId escape {TableCaster} dump Tables_config
  table key adapter.
Arguments run escapeId {TableCaster file} execute s _.
Arguments setAdapter {TableCaster file} table adapter _.
Arguments registerPlatform {TableCaster file} table platform _.
Arguments theConfig {TableCaster file} table _.
Arguments alter escapeId escape {TableCaster} dump {file} execute table adapter keys info key _.
Arguments syncTable escapeId escape {TableCaster} createTableCaster dump {file} tableInfo
  execute bots table _.

(** What one turn of the [for (const key of allKeys)] loop hands to [run]. *)
Definition planned (escapeId : string -> string) (escape : value -> string)
  {TableCaster : Type} (dump : TableCaster -> object -> object)
  (Tables_config : Tables.Registry) (table : string) (adapter : TableCaster)
  (keys : list string) (info : list ISqliteFieldInfo) (key : string) : list Statement :=
  if includes keys key && some_named info key then []
  else if includes keys key then
    match getColumnDefinitionSQL escapeId escape dump Tables_config table key adapter with
    | Ok def => [AddColumn table key def]
    | Throw _ => []
    end
  else [DropColumn table key].

(** A file that accepts one statement after the other. *)
Fixpoint executeAll {file : Type} (execute : Statement -> file -> option file)
  (statements : list Statement) (f : file) : option file :=
  match statements with
  | [] => Some f
  | s :: rest =>
      match execute s f with
      | Some f' => executeAll execute rest f'
      | None => None
      end
  end.

(** What the synchroniser relies on from the database file: a statement
    that the file accepts has its effect on the columns that
    [PRAGMA table_info] lists, and a table never has no column at all (SQLite
    refuses to create a table without columns and to drop the only column of
    a table). *)
Record Catalogue {file : Type}
  (tableInfo : file -> string -> list ISqliteFieldInfo)
  (execute : Statement -> file -> option file) : Prop := {
  created : forall table columns defs constraints f f',
    execute (CreateTable table columns defs constraints) f = Some f' ->
    map name (tableInfo f' table) = columns /\ columns <> [];
  added : forall table key def f f',
    execute (AddColumn table key def) f = Some f' ->
    map name (tableInfo f' table) = (map name (tableInfo f table) ++ [key])%list;
  dropped : forall table key f f',
    execute (DropColumn table key) f = Some f' ->
    map name (tableInfo f' table)
    = filter (fun k => negb (k =? key)) (map name (tableInfo f table))
    /\ map name (tableInfo f' table) <> []
}.

(** The table a statement is about. *)
Definition tableOf (s : Statement) : string :=
  match s with
  | AddColumn table _ _ => table
  | DropColumn table _ => table
  | CreateTable table _ _ _ => table
  end.

(** A statement leaves the columns of the other tables alone. *)
Record Separate {file : Type}
  (tableInfo : file -> string -> list ISqliteFieldInfo)
  (execute : Statement -> file -> option file) : Prop := {
  elsewhere : forall s f f' other,
    execute s f = Some f' -> other <> tableOf s -> tableInfo f' other = tableInfo f other
}.

Section Start.

Variable escapeId : string -> string.
Variable escape : value -> string.
Variable TableCaster : Type.
Variable createTableCaster : Tables.Registry -> string -> TableCaster.
Variable dump : TableCaster -> object -> object.
Variable file : Type.
Variable tableInfo : file -> string -> list ISqliteFieldInfo.
Variable execute : Statement -> file -> option file.
Variable bots : list Bot.

(** [start()]: [opened] is the database that [sqlite(path)] opens; the
    names of [for (const name in Tables.config)] are those registered when
    the loop begins ([syncTable] registers none). *)
Definition start (opened : file) : M (World TableCaster file) unit :=
  fun this =>
    let this := {| Tables_config := Tables_config this; dbAdapters := dbAdapters this;
                   db := opened; ran := ran this |} in
    for_of (keys (Tables_config this))
      (syncTable escapeId escape createTableCaster dump tableInfo execute bots) this.

End Start.

Arguments start escapeId escape {TableCaster} createTableCaster dump {file} tableInfo
  execute bots opened _.

End Sqlite.

(** ** The WebSocket client of the adapters *)
Module Adapter.

(** The members of [Bot.Status] that the client assigns. *)
Inductive Status : Type := CONNECTING | NET_ERROR | GOOD.

Record WsClientOptions : Type := {
  retryLazy : Z;
  retryTimes : Z;
  retryInterval : Z
}.

(** The options handed to the constructor: [None] where a key is absent. *)
Record Given : Type := {
  givenLazy : option Z;
  givenTimes : option Z;
  givenInterval : option Z
}.

(** What [reject] is called with: [new Error(message)], or what
    [this.connect(bot)] was rejected with. *)
Inductive Reason : Type :=
| NewError (message : string)
| Passed (reason : value).

(** What the [close] event hands over as its reason: a string, or a buffer
    with the bytes of the text (the [ws] library hands over a buffer from its
    version 8 on; which version the client runs on is not in its source). *)
Inductive CloseReason : Type :=
| Text (reason : string)
| Bytes (reason : string).

Section WsClient.

(** [Time.minute] and [Time.second] of the utilities; the sockets of the
    [ws] library; the address of a socket without its query, which is
    [socket.url.replace(...)] in [connect]. *)
Variable Time_minute Time_second : Z.
Variable Socket : Type.
Variable url : Socket -> string.

(** [WsClient.options] *)
Definition WsClient_options : WsClientOptions :=
  {| retryLazy := Time_minute;
     retryInterval := 5 * Time_second;
     retryTimes := 6 |}.

(** The spread of [WsClient.options] and of the given options in the
    constructor. *)
Definition constructor (given : Given) : WsClientOptions :=
  {| retryLazy := match givenLazy given with
                  | Some v => v
                  | None => retryLazy WsClient_options
                  end;
     retryTimes := match givenTimes given with
                   | Some v => v
                   | None => retryTimes WsClient_options
                   end;
     retryInterval := match givenInterval given with
                      | Some v => v
                      | None => retryInterval WsClient_options
                      end |}.

(** What the client asks of its surroundings; the lines of the log are
    left out. *)
Inductive Effect : Type :=
| Prepare
| Connect
| SetTimeout (timeout : Z)
| Resolve
| Reject (reason : Reason)
| CloseSocket (s : Socket).

(** The client with one bot: [this._listening], the [_retryCount] of
    [_listen], [bot.socket], [bot.status], and what was asked so far, oldest
    first. *)
Record Client : Type := {
  _listening : bool;
  _retryCount : Z;
  socket : option Socket;
  status : Status;
  done : list Effect
}.

Definition ask (e : Effect) (c : Client) : Client :=
  {| _listening := _listening c; _retryCount := _retryCount c;
     socket := socket c; status := status c; done := (done c ++ [e])%list |}.

Section Listen.

(** [this.options] *)
Variable options : WsClientOptions.

(** [connect], up to the socket that [this.prepare(bot)] promises; the
    handlers below are those it puts on that socket. *)
Definition connect (c : Client) : Client :=
  ask Prepare
    {| _listening := _listening c; _retryCount := _retryCount c;
       socket := socket c; status := CONNECTING; done := done c |}.

(** [reason || `failed to connect to ${url}`], as the text it has in the
    message of the error: only the empty string is falsy; a buffer never is,
    not even an empty one, and stands in the message with its text. *)
Definition messageOf (s : Socket) (reason : CloseReason) : string :=
  match reason with
  | Text reason => if reason =? "" then "failed to connect to " ++ url s else reason
  | Bytes reason => reason
  end.

(** The handler of [close]; [appOpen] is whether [this.app.status] is
    [App.Status.open]. *)
Definition onClose (s : Socket) (appOpen : bool) (reason : CloseReason) (c : Client)
  : Client :=
  let c := {| _listening := _listening c; _retryCount := _retryCount c;
              socket := None; status := NET_ERROR; done := done c |} in
  if negb (_listening c) then c
  else
    let message := messageOf s reason in
    let timeout := retryInterval options in
    let retry (timeout : Z) :=
      ask (SetTimeout timeout)
        {| _listening := _listening c; _retryCount := (_retryCount c + 1)%Z;
           socket := socket c; status := status c; done := done c |} in
    if (retryTimes options <=? _retryCount c)%Z then
      if appOpen then retry (retryLazy options)
      else ask (Reject (NewError message)) c
    else retry timeout.

(** The function handed to [setTimeout]. *)
Definition onTimeout (c : Client) : Client :=
  if _listening c then connect c else c.

(** The handler of [open]. *)
Definition onOpen (s : Socket) (c : Client) : Client :=
  ask Connect
    {| _listening := _listening c; _retryCount := 0%Z;
       socket := Some s; status := status c; done := done c |}.

(** The two functions handed to [this.connect(bot).then]. *)
Definition onConnected (c : Client) : Client :=
  ask Resolve
    {| _listening := _listening c; _retryCount := _retryCount c;
       socket := socket c; status := GOOD; done := done c |}.

Definition onRejected (reason : value) (c : Client) : Client :=
  ask (Reject (Passed reason)) c.

Definition _listen (c : Client) : Client :=
  connect
    {| _listening := _listening c; _retryCount := 0%Z;
       socket := socket c; status := status c; done := done c |}.

Definition start (c : Client) : Client :=
  _listen
    {| _listening := true; _retryCount := _retryCount c;
       socket := socket c; status := status c; done := done c |}.

Definition stop (c : Client) : Client :=
  let c := {| _listening := false; _retryCount := _retryCount c;
              socket := socket c; status := status c; done := done c |} in
  match socket c with
  | Some s => ask (CloseSocket s) c
  | None => c
  end.

(** What happens to a started client: its sockets close and open, its
    timers go off, [this.connect(bot)] is settled, and [stop] is called. *)
Inductive Event : Type :=
| Closed (s : Socket) (appOpen : bool) (reason : CloseReason)
| TimedOut
| Opened (s : Socket)
| Connected
| Failed (reason : value)
| Stopped.

Definition step (c : Client) (e : Event) : Client :=
  match e with
  | Closed s appOpen reason => onClose s appOpen reason c
  | TimedOut => onTimeout c
  | Opened s => onOpen s c
  | Connected => onConnected c
  | Failed reason => onRejected reason c
  | Stopped => stop c
  end.

Definition run (events : list Event) (c : Client) : Client :=
  fold_left step events c.

(** A socket closes and the timer that was set goes off, [n] times. *)
Definition failures (s : Socket) (appOpen : bool) (reason : CloseReason) (n : nat)
  : list Event :=
  List.concat (repeat [Closed s appOpen reason; TimedOut] n).

End Listen.

Definition isTimeout (e : Effect) : bool :=
  match e with
  | SetTimeout _ => true
  | _ => false
  end.

Definition isReject (e : Effect) : bool :=
  match e with
  | Reject _ => true
  | _ => false
  end.

(** The events at which the app is open when a socket closes, and at which
    [this.connect(bot)] is not rejected. *)
Definition whileOpen (e : Event) : bool :=
  match e with
  | Closed _ appOpen _ => appOpen
  | Failed _ => false
  | _ => true
  end.

(** The events of a client that is only failing: sockets close while the
    app is not open, timers go off, [stop] is called. *)
Definition failing (e : Event) : bool :=
  match e with
  | Closed _ appOpen _ => negb appOpen
  | TimedOut | Stopped => true
  | _ => false
  end.

(** A socket closes, or a timer goes off. *)
Definition pending (e : Event) : bool :=
  match e with
  | Closed _ _ _ | TimedOut => true
  | _ => false
  end.

End WsClient.

Arguments Prepare {Socket}.
Arguments Connect {Socket}.
Arguments SetTimeout {Socket} timeout.
Arguments Resolve {Socket}.
Arguments Reject {Socket} reason.
Arguments CloseSocket {Socket} s.
Arguments TimedOut {Socket}.
Arguments Connected {Socket}.
Arguments Failed {Socket} reason.
Arguments Stopped {Socket}.
Arguments Closed {Socket} s appOpen reason.
Arguments Opened {Socket} s.
Arguments _listening {Socket} _.
Arguments _retryCount {Socket} _.
Arguments socket {Socket} _.
Arguments status {Socket} _.
Arguments done {Socket} _.
Arguments ask {Socket} e c.
Arguments connect {Socket} c.
Arguments onClose {Socket} url options s appOpen reason c.
Arguments onTimeout {Socket} c.
Arguments onOpen {Socket} s c.
Arguments onConnected {Socket} c.
Arguments onRejected {Socket} reason c.
Arguments _listen {Socket} c.
Arguments start {Socket} c.
Arguments stop {Socket} c.
Arguments step {Socket} url options c e.
Arguments run {Socket} url options events c.
Arguments failures {Socket} s appOpen reason n.
Arguments messageOf {Socket} url s reason.
Arguments isTimeout {Socket} e.
Arguments isReject {Socket} e.
Arguments whileOpen {Socket} e.
Arguments failing {Socket} e.
Arguments pending {Socket} e.

End Adapter.

(** ** Stand-ins for the collaborators, for the examples *)
Module Samples.

Definition backtick (name : string) : string := "`" ++ name ++ "`".

Definition literal (v : value) : string :=
  match v with
  | VNum n => string_of_Z n
  | VStr s => "'" ++ s ++ "'"
  | _ => "NULL"
  end.

(** [Query.resolve] on a query that is an expression already. *)
Definition expression (name : string) (query : value) : value := query.

(** A server that stores nothing and answers every statement with no rows. *)
Definition silent (sql : string) (values : list value) (s : unit) : result value * unit :=
  (Ok (VArr []), s).

(** A server that answers every statement with the header of one inserted
    row, whose id is 7. *)
Definition inserting (sql : string) (values : list value) (s : unit) : result value * unit :=
  (Ok (VObj [("affectedRows", VNum 1); ("insertId", VNum 7)]), s).

Definition wholeRow (modifier : value) : Mysql.Modifier :=
  {| Mysql.mfields := VUndefined; Mysql.limit := None; Mysql.offset := None |}.

Definition noFields (name : string) (fields : value) : list string := [].

Definition joined (keys : list string) : string :=
  match keys with
  | [] => "*"
  | _ => String.concat "," (map backtick keys)
  end.

Definition valuesOf (name : string) (data : object) (fields : list string) : list value :=
  map (fun field => match lookup field data with Some v => v | None => VUndefined end)
      fields.

Definition fresh : Mysql.Database unit := {| Mysql.db := tt; Mysql.sent := [] |}.

(** A [user] table whose [authority] starts at 0. *)
Definition userField (initial : value) : Tables.Field :=
  {| Tables.type := Tables.unsigned; Tables.initial := initial;
     Tables.nullable := None; Tables.length := None |}.

Definition userConfig : Tables.Config :=
  {| Tables.fields := [("id", userField VUndefined); ("authority", userField (VNum 0))];
     Tables.primary := Tables.One "id";
     Tables.autoInc := true;
     Tables.unique := [];
     Tables.foreign := [] |}.

Definition registry : Tables.Registry := [("user", userConfig)].

Definition defaults (name : string) : object :=
  if name =? "user" then [("authority", VNum 0)] else [].

(** A database file as the columns of its tables. *)
Definition Columns : Type := list (string * list string).

Definition column (key : string) : Sqlite.ISqliteFieldInfo :=
  {| Sqlite.name := key; Sqlite.type := "TEXT"; Sqlite.notnull := 0%Z;
     Sqlite.dflt_value := ""; Sqlite.pk := false |}.

Definition columnsOf (f : Columns) (table : string) : list Sqlite.ISqliteFieldInfo :=
  match lookup table f with
  | Some columns => map column columns
  | None => []
  end.

Definition apply (s : Sqlite.Statement) (f : Columns) : option Columns :=
  match s with
  | Sqlite.CreateTable table columns _ _ =>
      match lookup table f, columns with
      | None, _ :: _ => Some (assign table columns f)
      | _, _ => None
      end
  | Sqlite.AddColumn table key _ =>
      match lookup table f with
      | Some columns =>
          if Sqlite.includes columns key then None
          else Some (assign table (columns ++ [key])%list f)
      | None => None
      end
  | Sqlite.DropColumn table key =>
      match lookup table f with
      | Some columns =>
          match filter (fun k => negb (k =? key)) columns with
          | [] => None
          | rest => if Sqlite.includes columns key then Some (assign table rest f) else None
          end
      | None => None
      end
  end.

Definition caster (registry : Tables.Registry) (table : string) : unit := tt.

Definition dumped (adapter : unit) (row : object) : object := row.

Definition world (registry : Tables.Registry) (f : Columns) : Sqlite.World unit Columns :=
  {| Sqlite.Tables_config := registry; Sqlite.dbAdapters := [];
     Sqlite.db := f; Sqlite.ran := [] |}.

Definition someBots : list Sqlite.Bot :=
  [{| Sqlite.platform := "onebot" |}; {| Sqlite.platform := "discord" |};
   {| Sqlite.platform := "onebot" |}].

(** A table that is not the identity table. *)
Definition channelConfig : Tables.Config :=
  {| Tables.fields := [("id", userField VUndefined); ("flag", userField (VNum 0))];
     Tables.primary := Tables.One "id";
     Tables.autoInc := false;
     Tables.unique := [];
     Tables.foreign := [] |}.

Definition twoTables : Tables.Registry :=
  [("user", userConfig); ("channel", channelConfig)].

Definition synchronise (table : string) : M (Sqlite.World unit Columns) unit :=
  Sqlite.syncTable backtick literal caster dumped columnsOf apply someBots table.

(** No table is there yet. *)
Definition emptyFile : Sqlite.World unit Columns := world twoTables [].

(** The [user] table is there, without its [authority] column and with a
    column [legacy] that is not declared. *)
Definition oldFile : Sqlite.World unit Columns :=
  world twoTables [("user", ["id"; "legacy"])].

(** A table whose primary key is a list of fields and that asks for
    auto-increment all the same. *)
Definition pairConfig : Tables.Config :=
  {| Tables.fields := [("pid", userField VUndefined); ("platform", userField VUndefined)];
     Tables.primary := Tables.Many ["pid"; "platform"];
     Tables.autoInc := true;
     Tables.unique := [];
     Tables.foreign := [] |}.

Definition boot (opened : Columns) : M (Sqlite.World unit Columns) unit :=
  Sqlite.start backtick literal caster dumped columnsOf apply someBots opened.

(** A client that was not started yet; a socket is its address. *)
Definition idle : Adapter.Client string :=
  {| Adapter._listening := false; Adapter._retryCount := 0%Z;
     Adapter.socket := None; Adapter.status := Adapter.NET_ERROR;
     Adapter.done := [] |}.

Definition address (s : string) : string := s.

(** The options of a client that is given two retries. *)
Definition twice : Adapter.WsClientOptions :=
  Adapter.constructor 60000 1000
    {| Adapter.givenLazy := None; Adapter.givenTimes := Some 2%Z;
       Adapter.givenInterval := None |}.

End Samples.

(** * Properties *)

(** ** The filter compiler *)
Section FilterFacts.

Import Mysql.

Variable escapeId : string -> string.
Variable escape : value -> string.

Lemma parseQuery_object (props : object) :
  parseQuery escapeId escape (VObj props) = loop escapeId escape (parseQuery escapeId escape) props [].
Proof. reflexivity. Qed.

(** An index is none of [$not], [$and], [$or]. *)
Lemma index_not_logical (n : nat) : logical (string_of_nat n) = false.
Proof.
  unfold string_of_nat.
  assert (Hnonnil : Nat.to_uint n <> Decimal.Nil).
  { rewrite <- (DecimalNat.Unsigned.of_to n), DecimalNat.Unsigned.to_of.
    apply DecimalFacts.unorm_nonnil. }
  destruct (Nat.to_uint n); [contradiction | reflexivity ..].
Qed.

Lemma visit_field parse parse' key value conditions :
  logical key = false ->
  visit escapeId escape parse key value conditions
  = visit escapeId escape parse' key value conditions.
Proof.
  unfold logical, visit. intros Hkey.
  apply orb_false_iff in Hkey as [Hkey Hor]. apply orb_false_iff in Hkey as [Hnot Hand].
  now rewrite Hnot, Hand, Hor.
Qed.

Lemma loop_indexed parse parse' {X} (inject : X -> value) (items : list X) :
  forall from conditions,
    loop escapeId escape parse (indexed from (map inject items)) conditions
    = loop escapeId escape parse' (indexed from (map inject items)) conditions.
Proof.
  induction items as [|x items IH]; intros from conditions; simpl; [reflexivity|].
  rewrite (visit_field parse parse') by apply index_not_logical.
  destruct (visit escapeId escape parse' _ _ _); [apply IH | reflexivity ..].
Qed.

(** [parseQuery] is the loop over what [for ... in] visits, whatever the
    query is. *)
Lemma parseQuery_for_in (query : value) :
  parseQuery escapeId escape query
  = loop escapeId escape (parseQuery escapeId escape) (for_in query) [].
Proof.
  destruct query; try reflexivity; simpl.
  - rewrite <- (map_id (chars s)). apply loop_indexed.
  - rewrite <- (map_id items). apply loop_indexed.
Qed.

(** The own properties of [queryOperators] are the sixteen operators. *)
Lemma isOwn_operatorNames (prop : string) :
  isOwn escape prop = true <-> In prop operatorNames.
Proof.
  unfold isOwn, ownOperator, operatorNames. split.
  - repeat match goal with
           | |- context [String.eqb prop ?n] =>
               destruct (String.eqb_spec prop n); [subst; simpl; tauto|]
           end.
    discriminate.
  - simpl. intros H.
    repeat (destruct H as [H|H]; [subst prop; reflexivity|]).
    destruct H.
Qed.

(** The loop only returns early at an [$and] whose list is empty. *)
Lemma visit_Return parse key value conditions filter :
  visit escapeId escape parse key value conditions = Return filter ->
  key = "$and" /\ has_length value = Ok false /\ filter = "0".
Proof.
  unfold visit.
  destruct (key =? "$not").
  { destruct (parse value); discriminate. }
  destruct (String.eqb_spec key "$and") as [->|_].
  { destruct (has_length value) as [[|]|].
    - destruct value; try discriminate.
      destruct (map_result parse items); discriminate.
    - intros [= <-]. auto.
    - discriminate. }
  destruct (if key =? "$or" then has_length value else Ok false) as [[|]|].
  - destruct value; try discriminate.
    destruct (map_result parse items); discriminate.
  - destruct (fieldQuery escapeId escape key value); discriminate.
  - discriminate.
Qed.

(** An error past entries that do not leave the loop is raised. *)
Lemma loop_Throw_after parse (before rest : object) :
  passes before ->
  (forall conditions, exists e, loop escapeId escape parse rest conditions = Throw e) ->
  forall conditions,
    exists e, loop escapeId escape parse (before ++ rest)%list conditions = Throw e.
Proof.
  intros Hreach Hrest.
  induction before as [|[key value] before IH]; intros conditions; simpl.
  - apply Hrest.
  - destruct (visit escapeId escape parse key value conditions) eqn:Hvisit.
    + apply IH. intros v Hv. apply Hreach. now right.
    + apply visit_Return in Hvisit as (-> & Hlen & _).
      exfalso. apply (Hreach value); [now left | exact Hlen].
    + now exists e.
Qed.

(** An [$and] whose list is empty ends the loop with the constant false,
    when the loop gets to it without an error. *)
Lemma loop_empty_and parse (before after : object) operand :
  has_length operand = Ok false ->
  forall conditions filter,
    loop escapeId escape parse before conditions = Ok filter ->
    loop escapeId escape parse (before ++ ("$and", operand) :: after)%list conditions
    = Ok "0".
Proof.
  intros Hempty.
  induction before as [|[key value] before IH]; intros conditions filter; simpl.
  - intros _. unfold visit. simpl. now rewrite Hempty.
  - destruct (visit escapeId escape parse key value conditions) eqn:Hvisit.
    + apply IH.
    + apply visit_Return in Hvisit as (_ & _ & ->). reflexivity.
    + discriminate.
Qed.

Lemma map_result_Throw {X Y} (f : X -> result Y) (earlier : list X) x (later : list X) e :
  f x = Throw e -> exists e', map_result f (earlier ++ x :: later)%list = Throw e'.
Proof.
  intros Hx. induction earlier as [|y earlier [e' IH]]; simpl.
  - rewrite Hx. now exists e.
  - destruct (f y); [rewrite IH; now exists e' | now eexists].
Qed.

Lemma queryExpression_el escKey (before after : object) operand :
  elementShape operand = false ->
  exists e,
    queryExpression escape escKey (before ++ ("$el", operand) :: after)%list = Throw e.
Proof.
  intros Hshape.
  induction before as [|[prop v] before [e IH]]; simpl.
  - destruct operand; try discriminate Hshape; eexists; reflexivity.
  - destruct (queryOperators escape prop) as [operator|].
    + destruct (operator escKey v); simpl.
      * rewrite IH. now exists e.
      * now eexists.
    + now exists e.
Qed.

(** A property that is not [in queryOperators] pushes nothing. *)
Lemma queryExpression_skip escKey prop operand (rest : object) :
  queryOperators escape prop = None ->
  queryExpression escape escKey ((prop, operand) :: rest)
  = queryExpression escape escKey rest.
Proof. intros H. simpl. now rewrite H. Qed.

Lemma queryExpression_none escKey (props : object) :
  (forall prop operand, In (prop, operand) props -> queryOperators escape prop = None) ->
  queryExpression escape escKey props = Ok [].
Proof.
  induction props as [|[prop operand] props IH]; intros H; [reflexivity|].
  rewrite queryExpression_skip by (apply (H prop operand); now left).
  apply IH. intros p o Hin. apply (H p o). now right.
Qed.

(** An operator map without any member of [queryOperators] leaves the
    compiled conjunction as it is; alone, it compiles to the constant true. *)
Lemma unknown_operators_true key (props : object) :
  logical key = false ->
  (forall prop operand, In (prop, operand) props -> queryOperators escape prop = None) ->
  parseQuery escapeId escape (VObj [(key, VObj props)]) = Ok "1".
Proof.
  intros Hkey Hnone. rewrite parseQuery_object. simpl. unfold visit.
  unfold logical in Hkey.
  apply orb_false_iff in Hkey as [Hkey Hor]. apply orb_false_iff in Hkey as [Hnot Hand].
  rewrite Hnot, Hand, Hor. unfold fieldQuery. simpl for_in.
  now rewrite queryExpression_none.
Qed.

End FilterFacts.

Section FilterClaims.

Import Mysql Samples.

(** C1, as the specification states it, fails: the empty conjunction
    [{$and: []}] does not compile to the constant true. *)
Lemma C1_empty_and_is_not_true :
  ~ (createFilter backtick literal expression "user" (VObj [("$and", VArr [])]) = Ok "1"
     /\ createFilter backtick literal expression "user" (VObj [("$or", VArr [])]) = Ok "0").
Proof. intros [H _]. discriminate H. Qed.

(** C1, amended: both the empty conjunction [{$and: []}] and the empty
    disjunction [{$or: []}] compile to the constant false, ['0']. *)
Theorem C1_empty_and_or_false escapeId escape resolve name :
  keepsExpression resolve ->
  createFilter escapeId escape resolve name (VObj [("$and", VArr [])]) = Ok "0"
  /\ createFilter escapeId escape resolve name (VObj [("$or", VArr [])]) = Ok "0".
Proof.
  intros Hresolve. unfold createFilter. rewrite !Hresolve. split; reflexivity.
Qed.

Lemma C1_empty_and_or_false_witness :
  keepsExpression expression
  /\ createFilter backtick literal expression "user" (VObj [("$and", VArr [])]) = Ok "0"
  /\ createFilter backtick literal expression "user" (VObj [("$or", VArr [])]) = Ok "0".
Proof.
  split.
  - intros name props. reflexivity.
  - apply (C1_empty_and_or_false backtick literal expression "user").
    intros name props. reflexivity.
Defined.

(** C7, as the specification states it, fails: behind an [$and] with an
    empty list an [$el] operand of an unsupported shape raises nothing. *)
Lemma C7_empty_and_hides_unsupported_el :
  elementShape (VObj []) = false
  /\ ~ (exists e,
          createFilter backtick literal expression "user"
            (VObj [("$and", VArr []); ("tags", VObj [("$el", VObj [])])]) = Throw e).
Proof. split; [reflexivity|]. intros [e H]. discriminate H. Qed.

(** C7, amended: compiling a filter throws whenever the compiler gets to an
    [$el] operand that is neither an array, a number nor a string, be it in
    the operator map of a field of the filter itself or of an expression
    under [$not], [$and] or [$or].  It does not get there, and throws
    nothing, in an expression in which an earlier key is an [$and] with an
    empty list and the keys before that one compile without an error: that
    expression is the constant false at once, whatever comes after the
    [$and]. *)
Theorem C7_el_unsupported_operand_throws escapeId escape resolve name query :
  keepsExpression resolve ->
  (reachesBadElement query ->
   exists e, createFilter escapeId escape resolve name query = Throw e)
  /\ (forall before operand after filter,
        has_length operand = Ok false ->
        parseQuery escapeId escape (VObj before) = Ok filter ->
        parseQuery escapeId escape (VObj (before ++ ("$and", operand) :: after)) = Ok "0"
        /\ createFilter escapeId escape resolve name
             (VObj (before ++ ("$and", operand) :: after)) = Ok "0").
Proof.
  intros Hresolve. split.
  - intros Hbad.
    assert (Hparse : exists e, parseQuery escapeId escape query = Throw e).
    { induction Hbad as [before key operators operand more after Hpass Hkey Hshape
                        |before query after Hpass _ [e IH]
                        |before earlier query later after Hpass _ [e IH]
                        |before earlier query later after Hpass _ [e IH]];
        rewrite parseQuery_object; (apply loop_Throw_after; [exact Hpass|]);
        intros conditions; simpl; unfold visit.
      - unfold logical in Hkey.
        apply orb_false_iff in Hkey as [Hkey Hor].
        apply orb_false_iff in Hkey as [Hnot Hand].
        rewrite Hnot, Hand, Hor. unfold fieldQuery. simpl for_in.
        destruct (queryExpression_el escape (escapeId key) operators more operand Hshape)
          as [e He].
        rewrite He. now exists e.
      - simpl. rewrite IH. now exists e.
      - simpl.
        destruct (map_result_Throw (parseQuery escapeId escape) earlier query later e IH)
          as [e' He'].
        replace (Nat.eqb (List.length (earlier ++ query :: later)) 0) with false
          by (now destruct earlier).
        simpl. rewrite He'. now exists e'.
      - simpl.
        destruct (map_result_Throw (parseQuery escapeId escape) earlier query later e IH)
          as [e' He'].
        replace (Nat.eqb (List.length (earlier ++ query :: later)) 0) with false
          by (now destruct earlier).
        simpl. rewrite He'. now exists e'. }
    destruct Hparse as [e He]. exists e.
    inversion Hbad; subst; unfold createFilter; now rewrite Hresolve.
  - intros before operand after filter Hempty Hbefore.
    assert (Hparse : parseQuery escapeId escape (VObj (before ++ ("$and", operand) :: after))
                     = Ok "0").
    { rewrite parseQuery_object in *.
      now apply loop_empty_and with (filter := filter). }
    split; [exact Hparse|]. unfold createFilter. now rewrite Hresolve.
Qed.

Lemma C7_el_unsupported_operand_throws_witness :
  keepsExpression expression
  /\ reachesBadElement
       (VObj [("id", VNum 1);
              ("$or", VArr [VObj [("name", VStr "x")];
                            VObj [("tags", VObj [("$size", VNum 2);
                                                 ("$el", VObj [("x", VNum 1)])])]])])
  /\ (exists e,
         createFilter backtick literal expression "user"
           (VObj [("id", VNum 1);
                  ("$or", VArr [VObj [("name", VStr "x")];
                                VObj [("tags", VObj [("$size", VNum 2);
                                                     ("$el", VObj [("x", VNum 1)])])]])])
         = Throw e)
  /\ has_length (VArr []) = Ok false
  /\ parseQuery backtick literal (VObj [("id", VNum 1)]) = Ok "`id` = 1"
  /\ parseQuery backtick literal
       (VObj ([("id", VNum 1)] ++ ("$and", VArr []) :: [("tags", VObj [("$el", VObj [])])]))
     = Ok "0"
  /\ createFilter backtick literal expression "user"
       (VObj ([("id", VNum 1)] ++ ("$and", VArr []) :: [("tags", VObj [("$el", VObj [])])]))
     = Ok "0".
Proof.
  assert (Hresolve : keepsExpression expression) by (intros name props; reflexivity).
  assert (Hbad : reachesBadElement
            (VObj [("id", VNum 1);
                   ("$or", VArr [VObj [("name", VStr "x")];
                                 VObj [("tags", VObj [("$size", VNum 2);
                                                      ("$el", VObj [("x", VNum 1)])])]])])).
  { apply (bad_or [("id", VNum 1)] [VObj [("name", VStr "x")]] _ [] []).
    - intros value [H|[]]. discriminate H.
    - apply (bad_field [] "tags" [("$size", VNum 2)] (VObj [("x", VNum 1)]) [] []).
      + intros value [].
      + reflexivity.
      + reflexivity. }
  split; [exact Hresolve|]. split; [exact Hbad|].
  split;
    [exact (proj1 (C7_el_unsupported_operand_throws backtick literal expression "user"
                     (VObj [("id", VNum 1);
                            ("$or", VArr [VObj [("name", VStr "x")];
                                          VObj [("tags", VObj [("$size", VNum 2);
                                                               ("$el", VObj [("x", VNum 1)])])]])])
                     Hresolve) Hbad)|].
  split; [reflexivity|]. split; [reflexivity|].
  exact (proj2 (C7_el_unsupported_operand_throws backtick literal expression "user"
                  (VObj []) Hresolve)
           [("id", VNum 1)] (VArr []) [("tags", VObj [("$el", VObj [])])] "`id` = 1"
           eq_refl eq_refl).
Defined.

(** C8 at [{a: {toString: 1}}]: [toString] is not one of the operators, yet
    it is [in queryOperators], so the clause is not dropped: the filter
    compiles to the text of [Object.prototype.toString] and not to the
    constant true. *)
Theorem C8_inherited_member_is_not_dropped escapeId escape name :
  ~ In "toString" operatorNames
  /\ createFilter escapeId escape expression name
       (VObj [("a", VObj [("toString", VNum 1)])]) = Ok "[object Object]".
Proof.
  split; [|reflexivity].
  simpl. intros H.
  repeat (destruct H as [H|H]; [discriminate H|]). exact H.
Qed.

End FilterClaims.

(** ** The query facade *)
Section FacadeClaims.

Import Mysql Samples.

Variable escapeId : string -> string.
Variable escape : value -> string.
Variable resolve : string -> value -> value.
Variable server : Type.
Variable execute : string -> list value -> server -> result value * server.
Variable resolveModifier : value -> Modifier.
Variable inferFields : string -> value -> list string.
Variable joinKeys : list string -> string.

Local Abbreviation createFilter' := (createFilter escapeId escape resolve).
Local Abbreviation get' := (get escapeId escape resolve execute resolveModifier inferFields joinKeys).
Local Abbreviation set' := (set escapeId escape resolve execute).
Local Abbreviation remove' := (remove escapeId escape resolve execute).

(** C3, as the specification states it, fails: on a filter that compiles to
    the constant false, [set] does not return a zero count. *)
Lemma C3_set_returns_no_zero_count :
  ~ (createFilter backtick literal expression "user" (VObj [("id", VArr [])]) = Ok "0" ->
     get backtick literal expression silent wholeRow noFields joined
       "user" (VObj [("id", VArr [])]) VUndefined fresh = (Ok (VArr []), fresh)
     /\ set backtick literal expression silent
          "user" (VObj [("id", VArr [])]) [("name", VStr "x")] fresh = (Ok (VNum 0), fresh)
     /\ remove backtick literal expression silent
          "user" (VObj [("id", VArr [])]) fresh = (Ok (VNum 0), fresh)).
Proof.
  intros H. destruct (H eq_refl) as (_ & Hset & _). discriminate Hset.
Qed.

(** C3, amended: for every table and every filter that compiles to the
    constant false, [get] returns an empty sequence, [set] and [remove] return
    nothing ([undefined]), and none of the three sends a statement: the
    database instance is left as it was. *)
Theorem C3_false_filter_sends_nothing name q modifier data (this : Database server) :
  createFilter' name q = Ok "0" ->
  get' name q modifier this = (Ok (VArr []), this)
  /\ set' name q data this = (Ok VUndefined, this)
  /\ remove' name q this = (Ok VUndefined, this).
Proof.
  intros Hfilter. unfold get, set, remove, bind, lift.
  rewrite Hfilter. simpl. repeat split.
Qed.

(** C2 at the [user] table, the filter [{id: 1}] and the patch
    [{name: 'x'}]: the filter compiles to a condition on [id], and [remove]
    sends that condition in its [WHERE] clause, but the statement that [set]
    sends has no [WHERE] clause and carries no value of the patch.  Nothing
    of the filter but whether it is the constant false reaches [set]'s
    statement: two filters that compile, both or neither to the constant
    false, give the same call, so [set] cannot keep to the rows that match. *)
Theorem C2_set_sends_no_where_clause :
  createFilter backtick literal expression "user" (VObj [("id", VNum 1)]) = Ok "`id` = 1"
  /\ set backtick literal expression silent
       "user" (VObj [("id", VNum 1)]) [("name", VStr "x")] fresh
     = (Ok VUndefined,
        {| db := tt; sent := [("UPDATE user SET `name` = VALUES(`name`)", [])] |})
  /\ remove backtick literal expression silent "user" (VObj [("id", VNum 1)]) fresh
     = (Ok VUndefined,
        {| db := tt; sent := [("DELETE FROM ?? WHERE `id` = 1", [VStr "user"])] |})
  /\ createFilter backtick literal expression "user" (VObj [("id", VNum 2)]) = Ok "`id` = 2"
  /\ set backtick literal expression silent
       "user" (VObj [("id", VNum 2)]) [("name", VStr "x")] fresh
     = set backtick literal expression silent
         "user" (VObj [("id", VNum 1)]) [("name", VStr "x")] fresh
  /\ forall name q q' data filter filter' (this : Database server),
       createFilter' name q = Ok filter ->
       createFilter' name q' = Ok filter' ->
       (filter =? "0") = (filter' =? "0") ->
       set' name q data this = set' name q' data this.
Proof.
  do 5 (split; [reflexivity|]).
  intros name q q' data filter filter' this Hfilter Hfilter' Hsame.
  unfold set, bind, lift. rewrite Hfilter, Hfilter', Hsame. reflexivity.
Qed.

End FacadeClaims.

Section FacadeExamples.

Import Mysql Samples.

Lemma C3_false_filter_sends_nothing_witness :
  createFilter backtick literal expression "user" (VObj [("id", VArr [])]) = Ok "0"
  /\ get backtick literal expression silent wholeRow noFields joined
       "user" (VObj [("id", VArr [])]) VUndefined fresh = (Ok (VArr []), fresh)
  /\ set backtick literal expression silent
       "user" (VObj [("id", VArr [])]) [("name", VStr "x")] fresh = (Ok VUndefined, fresh)
  /\ remove backtick literal expression silent
       "user" (VObj [("id", VArr [])]) fresh = (Ok VUndefined, fresh).
Proof.
  split; [reflexivity|].
  exact (C3_false_filter_sends_nothing backtick literal expression unit silent
           wholeRow noFields joined "user" (VObj [("id", VArr [])]) VUndefined
           [("name", VStr "x")] fresh eq_refl).
Defined.

(** C4 at a [user] table whose [authority] starts at 0 and the row
    [{id: 1, authority: 4}]: the defaults of the table are spread over the
    row, so the statement carries the default 0 and not the incoming 4, and
    it is the statement that the row [{id: 1, authority: 0}] gives. *)
Theorem C4_upsert_sends_default_not_incoming_value :
  upsert backtick silent joined valuesOf defaults registry
    "user" [[("id", VNum 1); ("authority", VNum 4)]] None fresh
  = (Ok VUndefined,
     {| db := tt;
        sent := [("INSERT INTO `user` (`id`,`authority`) VALUES (?, ?)" ++ newline
                  ++ "      ON DUPLICATE KEY UPDATE `authority` = VALUES(`authority`)",
                  [VNum 1; VNum 0])] |})
  /\ forall escapeId server execute joinKeys formatValues config (this : Database server),
       upsert escapeId execute joinKeys formatValues defaults config
         "user" [[("id", VNum 1); ("authority", VNum 4)]] None this
       = upsert escapeId execute joinKeys formatValues defaults config
           "user" [[("id", VNum 1); ("authority", VNum 0)]] None this.
Proof. split; reflexivity. Qed.

End FacadeExamples.

(** ** Objects as property lists *)
Section ObjectFacts.

Context {A : Type}.
Implicit Types (o : list (string * A)) (key : string) (v : A).

Lemma lookup_assign_same key v o : lookup key (assign key v o) = Some v.
Proof.
  induction o as [|[k w] o IH]; simpl.
  - now rewrite String.eqb_refl.
  - destruct (k =? key) eqn:E; simpl; rewrite E; [reflexivity | exact IH].
Qed.

Lemma lookup_assign_other key key' v o :
  key' <> key -> lookup key' (assign key v o) = lookup key' o.
Proof.
  intros Hne. induction o as [|[k w] o IH]; simpl.
  - destruct (String.eqb_spec key key'); [congruence | reflexivity].
  - destruct (String.eqb_spec k key) as [->|Hk]; simpl.
    + destruct (String.eqb_spec key key'); [congruence | reflexivity].
    + now rewrite IH.
Qed.

Lemma assign_assign key v v' o : assign key v (assign key v' o) = assign key v o.
Proof.
  induction o as [|[k w] o IH]; simpl.
  - now rewrite String.eqb_refl.
  - destruct (k =? key) eqn:E; simpl; rewrite E; [reflexivity | now rewrite IH].
Qed.

Lemma assign_lookup key v o : lookup key o = Some v -> assign key v o = o.
Proof.
  induction o as [|[k w] o IH]; simpl; [discriminate|].
  destruct (k =? key); [now intros [= ->] | intros H; now rewrite IH].
Qed.

Lemma lookup_in_keys key o : In key (keys o) <-> exists v, lookup key o = Some v.
Proof.
  induction o as [|[k w] o IH]; simpl.
  - split; [tauto | intros [v H]; discriminate].
  - destruct (String.eqb_spec k key) as [->|Hk].
    + split; [now exists w | auto].
    + rewrite <- IH. tauto.
Qed.

Lemma in_keys_assign key key' v o :
  In key' (keys (assign key v o)) <-> key' = key \/ In key' (keys o).
Proof.
  induction o as [|[k w] o IH]; simpl.
  - intuition congruence.
  - destruct (String.eqb_spec k key) as [->|Hk]; simpl.
    + intuition congruence.
    + rewrite IH. intuition congruence.
Qed.

Lemma keys_assign_in key v o : In key (keys o) -> keys (assign key v o) = keys o.
Proof.
  induction o as [|[k w] o IH]; simpl; [tauto|].
  destruct (String.eqb_spec k key) as [->|Hk]; simpl; [reflexivity|].
  intros [H|H]; [congruence | now rewrite IH].
Qed.

Lemma NoDup_keys_assign key v o : NoDup (keys o) -> NoDup (keys (assign key v o)).
Proof.
  induction o as [|[k w] o IH]; simpl; intros Hnd.
  - constructor; [tauto | constructor].
  - inversion Hnd as [|? ? Hnotin Hrest]; subst.
    destruct (String.eqb_spec k key) as [->|Hk]; simpl.
    + now constructor.
    + constructor; [|now apply IH].
      fold (keys (assign key v o)). rewrite in_keys_assign.
      intros [->|H]; [congruence | exact (Hnotin H)].
Qed.

End ObjectFacts.

(** ** Platforms registered on a table config *)
Section PlatformFacts.

Import Sqlite.

Lemma includes_In (keys : list string) (key : string) :
  includes keys key = true <-> In key keys.
Proof.
  unfold includes. rewrite existsb_exists. split.
  - intros (k & Hin & Heq). apply String.eqb_eq in Heq. now subst.
  - intros Hin. exists key. split; [exact Hin | apply String.eqb_refl].
Qed.

Lemma includes_false (keys : list string) (key : string) :
  includes keys key = false <-> ~ In key keys.
Proof.
  rewrite <- includes_In. destruct (includes keys key); split; congruence.
Qed.

Lemma some_named_includes (info : list ISqliteFieldInfo) (key : string) :
  some_named info key = includes (map name info) key.
Proof.
  unfold some_named, includes. induction info as [|row info IH]; simpl; congruence.
Qed.




Lemma withPlatforms_rest (platforms : list string) (config : Tables.Config) :
  Tables.primary (fold_left withPlatform platforms config) = Tables.primary config
  /\ Tables.autoInc (fold_left withPlatform platforms config) = Tables.autoInc config
  /\ Tables.foreign (fold_left withPlatform platforms config) = Tables.foreign config.
Proof.
  revert config. induction platforms as [|p platforms IH]; intros config; simpl.
  - auto.
  - destruct (IH (withPlatform config p)) as (-> & -> & ->). auto.
Qed.



Lemma withPlatforms_keys_In (platforms : list string) (config : Tables.Config) key :
  In key (keys (Tables.fields (fold_left withPlatform platforms config)))
  <-> In key platforms \/ In key (keys (Tables.fields config)).
Proof.
  revert config. induction platforms as [|p platforms IH]; intros config; simpl.
  - tauto.
  - rewrite IH. simpl. rewrite in_keys_assign. intuition congruence.
Qed.

Lemma withPlatforms_keys_NoDup (platforms : list string) (config : Tables.Config) :
  NoDup (keys (Tables.fields config)) ->
  NoDup (keys (Tables.fields (fold_left withPlatform platforms config))).
Proof.
  revert config. induction platforms as [|p platforms IH]; intros config Hnd; simpl.
  - exact Hnd.
  - apply IH. simpl. now apply NoDup_keys_assign.
Qed.

(** Registering platforms that are fields already adds no field. *)
Lemma withPlatforms_keys_same (platforms : list string) (config : Tables.Config) :
  (forall p, In p platforms -> In p (keys (Tables.fields config))) ->
  keys (Tables.fields (fold_left withPlatform platforms config))
  = keys (Tables.fields config).
Proof.
  revert config. induction platforms as [|p platforms IH]; intros config Hall; simpl.
  - reflexivity.
  - rewrite IH.
    + simpl. apply keys_assign_in. apply Hall. now left.
    + intros q Hq. simpl. rewrite in_keys_assign. right. apply Hall. now right.
Qed.

Lemma withPlatforms_keys_again (platforms : list string) (config : Tables.Config) :
  keys (Tables.fields
          (fold_left withPlatform platforms (fold_left withPlatform platforms config)))
  = keys (Tables.fields (fold_left withPlatform platforms config)).
Proof.
  apply withPlatforms_keys_same. intros p Hp.
  rewrite withPlatforms_keys_In. now left.
Qed.



End PlatformFacts.

(** ** Loops and what they leave alone *)
Section EffFacts.

Context {S A B T : Type} (proj : S -> T).

Lemma for_of_preserves (body : A -> M S unit) :
  (forall x s, proj (snd (body x s)) = proj s) ->
  forall items s, proj (snd (for_of items body s)) = proj s.
Proof.
  intros Hbody. induction items as [|x items IH]; intros s; simpl; [reflexivity|].
  unfold bind. specialize (Hbody x s).
  destruct (body x s) as [[u|e] s']; simpl in *; [now rewrite IH | exact Hbody].
Qed.

Lemma map_of_preserves (f : A -> M S B) :
  (forall x s, proj (snd (f x s)) = proj s) ->
  forall items s, proj (snd (map_of items f s)) = proj s.
Proof.
  intros Hf. induction items as [|x items IH]; intros s; simpl; [reflexivity|].
  unfold bind. specialize (Hf x s).
  destruct (f x s) as [[y|e] s']; simpl in *; [|exact Hf].
  specialize (IH s').
  destruct (map_of items f s') as [[ys|e] s'']; simpl in *; congruence.
Qed.

Lemma Forall2_In_left (R : A -> B -> Prop) (l : list A) (l' : list B) :
  Forall2 R l l' -> forall x, In x l -> exists y, In y l' /\ R x y.
Proof.
  induction 1 as [|x y l l' Hxy _ IH]; intros z Hz; [destruct Hz|].
  destruct Hz as [->|Hz].
  - exists y. split; [now left | exact Hxy].
  - destruct (IH z Hz) as (y' & Hin & Hr). exists y'. split; [now right | exact Hr].
Qed.

End EffFacts.

(** ** The schema synchroniser *)
Section SyncFacts.

Import Sqlite.

Variable escapeId : string -> string.
Variable escape : value -> string.
Variable TableCaster : Type.
Variable createTableCaster : Tables.Registry -> string -> TableCaster.
Variable dump : TableCaster -> object -> object.
Variable file : Type.
Variable tableInfo : file -> string -> list ISqliteFieldInfo.
Variable execute : Statement -> file -> option file.
Variable bots : list Bot.

Local Abbreviation World := (Sqlite.World TableCaster file).
Local Abbreviation sync := (syncTable escapeId escape createTableCaster dump tableInfo execute bots).
Local Abbreviation columnDef := (getColumnDefinitionSQL escapeId escape dump).
Local Abbreviation run' := (run escapeId execute).
Local Abbreviation alter' := (alter escapeId escape dump execute).
Local Abbreviation planned' := (planned escapeId escape dump).
Local Abbreviation platforms := (Set_ (map platform bots)).

(** The config of [table] once [syncTable] has registered the platforms. *)
Local Abbreviation declared table config :=
  (if table =? "user" then fold_left withPlatform platforms config else config).

(** The world in which [syncTable] looks at the columns. *)
Local Abbreviation prepared table config w :=
  {| Tables_config := assign table (declared table config) (Tables_config w);
     dbAdapters := assign table (createTableCaster (Tables_config w) table) (dbAdapters w);
     db := db w; ran := ran w |}.

Lemma register_all table (ps : list string) (w : World) config :
  lookup table (Tables_config w) = Some config ->
  for_of ps (registerPlatform table) w
  = (Ok tt, {| Tables_config := assign table (fold_left withPlatform ps config)
                                       (Tables_config w);
               dbAdapters := dbAdapters w; db := db w; ran := ran w |}).
Proof.
  revert w config. induction ps as [|p ps IH]; intros [registry adapters f statements] config H;
    simpl in *.
  - unfold ret. now rewrite assign_lookup.
  - unfold bind, registerPlatform at 1. simpl. rewrite H.
    rewrite (IH _ (withPlatform config p)) by apply lookup_assign_same.
    simpl. now rewrite assign_assign.
Qed.

Lemma register_none table (ps : list string) (w : World) :
  lookup table (Tables_config w) = None ->
  snd (for_of ps (registerPlatform table) w) = w.
Proof.
  intros H. destruct ps as [|p ps]; simpl; [reflexivity|].
  unfold bind, registerPlatform. now rewrite H.
Qed.

(** [syncTable] up to the point where it looks at the columns. *)
Lemma sync_registered table (w : World) config :
  lookup table (Tables_config w) = Some config ->
  sync table w
  = let adapter := createTableCaster (Tables_config w) table in
    let keys := keys (Tables.fields (declared table config)) in
    match tableInfo (db w) table with
    | (_ :: _) as info =>
        for_of (keys ++ map name info)%list (alter' table adapter keys info)
          (prepared table config w)
    | [] =>
        (do defs <- map_of keys (fun key w =>
                      (columnDef (Tables_config w) table key adapter, w));
         run' (CreateTable table keys defs (constraintsOf escapeId (declared table config))))
          (prepared table config w)
    end.
Proof.
  intros H. unfold syncTable. unfold bind at 1 2 3 4. unfold setAdapter. simpl.
  destruct (table =? "user").
  - rewrite (register_all _ _ _ config) by exact H. simpl.
    unfold bind at 1, theConfig. simpl. rewrite lookup_assign_same.
    destruct (tableInfo (db w) table); reflexivity.
  - unfold ret. unfold bind at 1, theConfig. simpl. rewrite H.
    rewrite (assign_lookup _ _ _ H).
    destruct (tableInfo (db w) table); reflexivity.
Qed.

Lemma sync_unregistered table (w : World) :
  lookup table (Tables_config w) = None ->
  exists e,
    sync table w
    = (Throw e,
       {| Tables_config := Tables_config w;
          dbAdapters := assign table (createTableCaster (Tables_config w) table)
                               (dbAdapters w);
          db := db w; ran := ran w |}).
Proof.
  intros H. unfold syncTable. unfold bind at 1 2 3 4. unfold setAdapter. simpl.
  set (w1 := {| Tables_config := Tables_config w;
                dbAdapters := assign table (createTableCaster (Tables_config w) table)
                                     (dbAdapters w);
                db := db w; ran := ran w |}).
  assert (Hnone : lookup table (Tables_config w1) = None) by exact H.
  destruct (table =? "user").
  - pose proof (register_none table platforms w1 Hnone) as Hsnd.
    destruct (for_of platforms (registerPlatform table) w1) as [[u|e] w2];
      simpl in Hsnd; subst w2.
    + unfold bind, theConfig. rewrite Hnone. now eexists.
    + now eexists.
  - unfold ret, bind, theConfig. rewrite Hnone. now eexists.
Qed.

Lemma columnDef_declared registry table key adapter config :
  lookup table registry = Some config ->
  In key (keys (Tables.fields config)) ->
  exists def, columnDef registry table key adapter = Ok def.
Proof.
  intros Hconfig Hin. unfold getColumnDefinitionSQL. rewrite Hconfig.
  apply lookup_in_keys in Hin as [field ->]. cbv zeta.
  destruct (_ && Tables.autoInc config); [now eexists|].
  destruct (negb _); now eexists.
Qed.

Lemma columnDef_autoInc registry table key adapter config field :
  lookup table registry = Some config ->
  Tables.autoInc config = true ->
  Tables.primary config = Tables.One key ->
  lookup key (Tables.fields config) = Some field ->
  columnDef registry table key adapter
  = Ok (escapeId key ++ " INTEGER NOT NULL PRIMARY KEY AUTOINCREMENT").
Proof.
  intros Hconfig Hauto Hprimary Hfield. unfold getColumnDefinitionSQL.
  now rewrite Hconfig, Hfield, Hprimary, Hauto, String.eqb_refl.
Qed.

Lemma map_of_columnDef table adapter config (ks : list string) (w : World) :
  lookup table (Tables_config w) = Some config ->
  (forall key, In key ks -> In key (keys (Tables.fields config))) ->
  exists defs,
    map_of ks (fun key w => (columnDef (Tables_config w) table key adapter, w)) w
    = (Ok defs, w)
    /\ Forall2 (fun key def => columnDef (Tables_config w) table key adapter = Ok def)
               ks defs.
Proof.
  intros Hconfig. induction ks as [|key ks IH]; intros Hin; simpl.
  - exists []. split; [reflexivity | constructor].
  - destruct (columnDef_declared _ table key adapter _ Hconfig (Hin key (or_introl eq_refl)))
      as [def Hdef].
    destruct IH as (defs & Hmap & Hall); [intros k Hk; apply Hin; now right|].
    exists (def :: defs). unfold bind. rewrite Hdef, Hmap. split; [reflexivity|].
    now constructor.
Qed.

Lemma run_registry s (w : World) : Tables_config (snd (run' s w)) = Tables_config w.
Proof. unfold run. destruct (execute s (db w)); reflexivity. Qed.

Lemma run_ran s (w : World) : ran (snd (run' s w)) = (ran w ++ [s])%list.
Proof. unfold run. destruct (execute s (db w)); reflexivity. Qed.

Lemma run_ok s (w w' : World) :
  run' s w = (Ok tt, w') ->
  Tables_config w' = Tables_config w
  /\ ran w' = (ran w ++ [s])%list
  /\ execute s (db w) = Some (db w').
Proof.
  unfold run. destruct (execute s (db w)); [|discriminate].
  intros [= <-]. auto.
Qed.

Lemma alter_registry table adapter ks info key (w : World) :
  Tables_config (snd (alter' table adapter ks info key w)) = Tables_config w.
Proof.
  unfold alter. destruct (_ && _); [reflexivity|].
  destruct (includes ks key); [|apply run_registry].
  unfold bind. destruct (columnDef _ _ _ _); [apply run_registry | reflexivity].
Qed.

Lemma alter_ok table adapter ks info key (w w' : World) :
  alter' table adapter ks info key w = (Ok tt, w') ->
  Tables_config w' = Tables_config w
  /\ ran w' = (ran w ++ planned' (Tables_config w) table adapter ks info key)%list
  /\ executeAll execute (planned' (Tables_config w) table adapter ks info key) (db w)
     = Some (db w').
Proof.
  unfold alter, planned. destruct (_ && _).
  { intros [= <-]. now rewrite app_nil_r. }
  destruct (includes ks key).
  - unfold bind. destruct (columnDef _ _ _ _) as [def|e]; [|discriminate].
    intros H. apply run_ok in H as (Hreg & Hran & Hexec). simpl. now rewrite Hexec.
  - intros H. apply run_ok in H as (Hreg & Hran & Hexec). simpl. now rewrite Hexec.
Qed.

Lemma executeAll_app (first second : list Statement) (f : file) :
  executeAll execute (first ++ second) f
  = match executeAll execute first f with
    | Some f' => executeAll execute second f'
    | None => None
    end.
Proof.
  revert f. induction first as [|s first IH]; intros f; simpl; [reflexivity|].
  destruct (execute s f); [apply IH | reflexivity].
Qed.

Lemma loop_ok table adapter ks info (rest : list string) :
  forall w w' : World,
    for_of rest (alter' table adapter ks info) w = (Ok tt, w') ->
    Tables_config w' = Tables_config w
    /\ ran w' = (ran w ++ flat_map (planned' (Tables_config w) table adapter ks info) rest)%list
    /\ executeAll execute (flat_map (planned' (Tables_config w) table adapter ks info) rest)
         (db w) = Some (db w').
Proof.
  induction rest as [|key rest IH]; intros w w'; simpl.
  - intros [= <-]. now rewrite app_nil_r.
  - unfold bind.
    destruct (alter' table adapter ks info key w) as [[[]|e] w1] eqn:Hkey; [|discriminate].
    apply alter_ok in Hkey as (Hreg1 & Hran1 & Hexec1).
    intros H. apply IH in H as (Hreg & Hran & Hexec).
    rewrite Hreg1 in *. rewrite Hreg, Hran, Hran1, executeAll_app, Hexec1, Hexec.
    now rewrite app_assoc.
Qed.

(** A second look at columns that are all declared and all there. *)
Lemma loop_skip table adapter ks info (rest : list string) (w : World) :
  (forall key, In key rest -> includes ks key && some_named info key = true) ->
  for_of rest (alter' table adapter ks info) w = (Ok tt, w).
Proof.
  induction rest as [|key rest IH]; intros H; simpl; [reflexivity|].
  unfold bind, alter at 1. rewrite (H key (or_introl eq_refl)). simpl.
  apply IH. intros k Hk. apply H. now right.
Qed.

(** The registry after [syncTable]. *)
Lemma sync_registry table (w : World) config :
  lookup table (Tables_config w) = Some config ->
  Tables_config (snd (sync table w))
  = assign table (declared table config) (Tables_config w).
Proof.
  intros Hconfig. rewrite (sync_registered _ _ _ Hconfig). cbv zeta.
  destruct (tableInfo (db w) table).
  - unfold bind.
    match goal with
    | |- context [map_of ?ks ?f ?w0] =>
        pose proof (map_of_preserves Tables_config f
                      (fun x s => eq_refl) ks w0) as Hmap;
        destruct (map_of ks f w0) as [[defs|e] w1]
    end; simpl in Hmap |- *.
    + now rewrite run_registry.
    + exact Hmap.
  - now rewrite (for_of_preserves Tables_config _ (alter_registry _ _ _ _)).
Qed.


(** C10: in a table config with [autoInc] set, the column definition of the
    primary field is its escaped name followed by
    [INTEGER NOT NULL PRIMARY KEY AUTOINCREMENT], whatever type, initial value
    and nullability the field declares; and when the table is not there yet,
    the [CREATE TABLE] statement has that definition among its columns, and
    for constraints only those of the [unique] and the [foreign] entries: no
    primary-key constraint. *)
Theorem C10_autoInc_primary_column table (w : World) config key field :
  lookup table (Tables_config w) = Some config ->
  Tables.autoInc config = true ->
  Tables.primary config = Tables.One key ->
  lookup key (Tables.fields config) = Some field ->
  (forall adapter,
      columnDef (Tables_config w) table key adapter
      = Ok (escapeId key ++ " INTEGER NOT NULL PRIMARY KEY AUTOINCREMENT"))
  /\ (tableInfo (db w) table = [] ->
      exists config' defs,
        lookup table (Tables_config (snd (sync table w))) = Some config'
        /\ ran (snd (sync table w))
           = (ran w
              ++ [CreateTable table (keys (Tables.fields config')) defs
                    (map (uniqueKey escapeId) (Tables.unique config')
                     ++ map (foreignKey escapeId) (Tables.foreign config'))])%list
        /\ In (escapeId key ++ " INTEGER NOT NULL PRIMARY KEY AUTOINCREMENT") defs).
Proof.
  intros Hconfig Hauto Hprimary Hfield. split.
  - intros adapter. now apply (columnDef_autoInc _ _ _ _ config field).
  - intros Hinfo.
    set (config' := declared table config).
    assert (Hrest : Tables.primary config' = Tables.primary config
                    /\ Tables.autoInc config' = Tables.autoInc config).
    { subst config'. destruct (table =? "user"); [|auto].
      destruct (withPlatforms_rest platforms config) as (? & ? & _). auto. }
    destruct Hrest as [Hprimary' Hauto'].
    assert (Hkey : In key (keys (Tables.fields config'))).
    { subst config'. destruct (table =? "user").
      - rewrite withPlatforms_keys_In. right. apply lookup_in_keys. now exists field.
      - apply lookup_in_keys. now exists field. }
    pose proof (sync_registry _ _ _ Hconfig) as Hregistry.
    rewrite (sync_registered _ _ _ Hconfig) in *. cbv zeta in *. rewrite Hinfo in *.
    fold config' in Hregistry |- *.
    match goal with
    | |- context [bind _ _ ?w0] => set (w2 := w0) in *
    end.
    assert (Hconfig' : lookup table (Tables_config w2) = Some config')
      by apply lookup_assign_same.
    destruct (map_of_columnDef table (createTableCaster (Tables_config w) table)
                config' (keys (Tables.fields config')) w2 Hconfig' (fun k H => H))
      as (defs & Hmap & Hdefs).
    exists config', defs. unfold bind in *. rewrite Hmap in *.
    rewrite Hregistry, run_ran. repeat split.
    + apply lookup_assign_same.
    + unfold constraintsOf. rewrite Hauto', Hauto, andb_false_r. reflexivity.
    + destruct (Forall2_In_left _ _ _ Hdefs key Hkey) as (def & Hin & Hdef).
      apply lookup_in_keys in Hkey as [field' Hfield'].
      rewrite (columnDef_autoInc _ _ _ _ config' field' Hconfig') in Hdef;
        [congruence | congruence | congruence | exact Hfield'].
Qed.

Lemma count_app which (first second : list Statement) :
  count which (first ++ second) = count which first + count which second.
Proof. unfold count. now rewrite filter_app, length_app. Qed.

Lemma filter_key_absent (q : string -> bool) key (l : list string) :
  ~ In key l -> filter (fun k => (k =? key) && q k) l = [].
Proof.
  induction l as [|x l IH]; intros Hnotin; simpl; [reflexivity|].
  destruct (String.eqb_spec x key) as [->|_]; simpl.
  - exfalso. apply Hnotin. now left.
  - apply IH. intros H. apply Hnotin. now right.
Qed.

(** In a list without repetition a key is found once or not at all. *)
Lemma length_filter_key (q : string -> bool) key (l : list string) :
  NoDup l ->
  List.length (filter (fun k => (k =? key) && q k) l)
  = if includes l key && q key then 1 else 0.
Proof.
  induction 1 as [|x l Hnotin _ IH]; simpl; [reflexivity|].
  destruct (String.eqb_spec x key) as [->|Hne]; simpl.
  - rewrite filter_key_absent by exact Hnotin.
    destruct (q key); reflexivity.
  - exact IH.
Qed.

Lemma length_filter_none {X : Type} (q : X -> bool) (l : list X) :
  (forall x, In x l -> q x = false) -> List.length (filter q l) = 0.
Proof.
  induction l as [|x l IH]; intros H; simpl; [reflexivity|].
  rewrite (H x (or_introl eq_refl)). apply IH. intros y Hy. apply H. now right.
Qed.

Lemma count_planned_add registry table adapter ks info key (rest : list string) :
  (forall k, In k rest -> includes ks k = true ->
             exists def, columnDef registry table k adapter = Ok def) ->
  count (isAdd key) (flat_map (planned' registry table adapter ks info) rest)
  = List.length (filter (fun k => (k =? key) && (includes ks k && negb (some_named info k)))
                        rest).
Proof.
  induction rest as [|k rest IH]; intros Hdef; simpl; [reflexivity|].
  rewrite count_app, IH by (intros k' Hk'; apply Hdef; now right).
  unfold planned. destruct (includes ks k) eqn:Hks; simpl.
  - destruct (some_named info k); simpl.
    + now rewrite andb_false_r.
    + destruct (Hdef k (or_introl eq_refl) Hks) as [def ->].
      rewrite andb_true_r. unfold count. simpl. now destruct (k =? key).
  - now rewrite andb_false_r.
Qed.

Lemma count_planned_drop registry table adapter ks info key (rest : list string) :
  count (isDrop key) (flat_map (planned' registry table adapter ks info) rest)
  = List.length (filter (fun k => (k =? key) && negb (includes ks k)) rest).
Proof.
  induction rest as [|k rest IH]; simpl; [reflexivity|].
  rewrite count_app, IH.
  unfold planned. destruct (includes ks k) eqn:Hks; simpl.
  - rewrite andb_false_r.
    destruct (some_named info k); [reflexivity|].
    now destruct (columnDef registry table k adapter).
  - rewrite andb_true_r. unfold count. simpl. now destruct (k =? key).
Qed.

Lemma in_planned registry table adapter ks info key s :
  In s (planned' registry table adapter ks info key) <->
  (includes ks key = true /\ some_named info key = false
   /\ exists def, columnDef registry table key adapter = Ok def
                  /\ s = AddColumn table key def)
  \/ (includes ks key = false /\ s = DropColumn table key).
Proof.
  unfold planned. destruct (includes ks key); simpl.
  - destruct (some_named info key); simpl.
    + split; [tauto|]. intros [(_ & H & _)|[H _]]; discriminate H.
    + destruct (columnDef registry table key adapter) as [def|e]; simpl.
      * split.
        -- intros [<-|[]]. left. repeat split. now exists def.
        -- intros [(_ & _ & def' & [= <-] & ->)|[H _]]; [now left | discriminate H].
      * split; [tauto|].
        intros [(_ & _ & def' & H & _)|[H _]]; discriminate H.
  - split.
    + intros [<-|[]]. now right.
    + intros [(H & _)|[_ ->]]; [discriminate H | now left].
Qed.

(** C5: synchronising a table that has columns, when every statement is
    accepted, hands to [run] exactly one [ADD COLUMN] statement, with the
    generated definition, for each declared field that is no column, exactly
    one [DROP COLUMN] statement for each column that is no declared field,
    none for a name that is both, and no other statement.  The declared
    fields are those of the config after the platforms were registered; field
    names and column names do not repeat. *)
Theorem C5_alter_adds_missing_and_drops_undeclared table (w w' : World) config :
  lookup table (Tables_config w) = Some config ->
  NoDup (keys (Tables.fields config)) ->
  NoDup (map name (tableInfo (db w) table)) ->
  tableInfo (db w) table <> [] ->
  sync table w = (Ok tt, w') ->
  exists config' emitted,
    lookup table (Tables_config w') = Some config'
    /\ ran w' = (ran w ++ emitted)%list
    /\ (forall key,
           count (isAdd key) emitted
           = if includes (keys (Tables.fields config')) key
                && negb (some_named (tableInfo (db w) table) key)
             then 1 else 0)
    /\ (forall key,
           count (isDrop key) emitted
           = if some_named (tableInfo (db w) table) key
                && negb (includes (keys (Tables.fields config')) key)
             then 1 else 0)
    /\ (forall s, In s emitted ->
           (exists key def,
               s = AddColumn table key def
               /\ columnDef (Tables_config w') table key
                    (createTableCaster (Tables_config w) table) = Ok def)
           \/ (exists key, s = DropColumn table key)).
Proof.
  intros Hconfig Hfields Hcolumns Hinfo Hsync.
  rewrite (sync_registered _ _ _ Hconfig) in Hsync. cbv zeta in Hsync.
  set (config' := declared table config) in *.
  set (adapter := createTableCaster (Tables_config w) table) in *.
  set (info := tableInfo (db w) table) in *.
  set (ks := keys (Tables.fields config')) in *.
  assert (Hks : NoDup ks).
  { subst ks config'. destruct (table =? "user"); [|exact Hfields].
    now apply withPlatforms_keys_NoDup. }
  destruct info as [|row info0] eqn:Einfo; [contradiction|]. rewrite <- Einfo in *.
  apply loop_ok in Hsync as (Hregistry & Hran & _). simpl in Hregistry, Hran.
  set (registry' := assign table config' (Tables_config w)) in *.
  assert (Hconfig' : lookup table registry' = Some config') by apply lookup_assign_same.
  assert (Hdefs : forall k, In k (ks ++ map name info)%list -> includes ks k = true ->
                            exists def, columnDef registry' table k adapter = Ok def).
  { intros k _ Hk. apply includes_In in Hk.
    exact (columnDef_declared _ _ _ _ _ Hconfig' Hk). }
  exists config', (flat_map (planned' registry' table adapter ks info) (ks ++ map name info)).
  rewrite Hregistry. repeat split.
  - exact Hconfig'.
  - exact Hran.
  - intros key. rewrite count_planned_add by exact Hdefs.
    rewrite filter_app, length_app.
    rewrite (length_filter_none _ (map name info)), Nat.add_0_r.
    + rewrite length_filter_key by exact Hks.
      fold ks. now destruct (includes ks key).
    + intros k Hk. rewrite some_named_includes.
      apply includes_In in Hk. rewrite Hk. simpl. now rewrite !andb_false_r.
  - intros key. rewrite count_planned_drop.
    rewrite filter_app, length_app.
    rewrite (length_filter_none _ ks).
    + rewrite length_filter_key by exact Hcolumns. now rewrite some_named_includes.
    + intros k Hk. apply includes_In in Hk. rewrite Hk. now rewrite andb_false_r.
  - intros s Hs. apply in_flat_map in Hs as (key & _ & Hs).
    apply in_planned in Hs as [(_ & _ & def & Hdef & ->)|[_ ->]].
    + left. now exists key, def.
    + right. now exists key.
Qed.

Section Idempotence.

Hypothesis laws : Catalogue tableInfo execute.

Local Abbreviation columns table f := (map name (tableInfo f table)).

(** A statement of the loop: it adds or drops a column of [table]. *)
Local Abbreviation alters table s :=
  ((exists key def, s = AddColumn table key def) \/ (exists key, s = DropColumn table key)).

Lemma executeAll_nonempty table (statements : list Statement) :
  (forall s, In s statements -> alters table s) ->
  forall f f', executeAll execute statements f = Some f' ->
               columns table f <> [] -> columns table f' <> [].
Proof.
  induction statements as [|s statements IH]; intros Hall f f'; simpl.
  - now intros [= <-].
  - destruct (execute s f) as [f1|] eqn:Hs; [|discriminate].
    intros Hrest Hf. apply (IH (fun s' H => Hall s' (or_intror H)) f1 f' Hrest).
    destruct (Hall s (or_introl eq_refl)) as [(key & def & ->)|(key & ->)].
    + rewrite (added _ _ laws _ _ _ _ _ Hs). now destruct (columns table f).
    + exact (proj2 (dropped _ _ laws _ _ _ _ Hs)).
Qed.

(** The columns after statements that never add a column they also drop. *)
Lemma executeAll_columns table (statements : list Statement) :
  (forall s, In s statements -> alters table s) ->
  (forall key def, In (AddColumn table key def) statements ->
                   ~ In (DropColumn table key) statements) ->
  forall f f', executeAll execute statements f = Some f' ->
  forall x, In x (columns table f')
            <-> (In x (columns table f) \/ exists def, In (AddColumn table x def) statements)
                /\ ~ In (DropColumn table x) statements.
Proof.
  induction statements as [|s statements IH]; intros Hall Hapart f f'; simpl.
  - intros [= <-] x. split; [tauto|]. intros [[H|[def []]] _]. exact H.
  - destruct (execute s f) as [f1|] eqn:Hs; [|discriminate].
    intros Hrest x.
    rewrite (IH (fun s' H => Hall s' (or_intror H))
                (fun key def Hadd Hdrop =>
                   Hapart key def (or_intror Hadd) (or_intror Hdrop))
                f1 f' Hrest x).
    destruct (Hall s (or_introl eq_refl)) as [(key & def & ->)|(key & ->)].
    + rewrite (added _ _ laws _ _ _ _ _ Hs), in_app_iff. simpl. split.
      * intros [[[H|[<-|[]]]|[def' H]] Hnot].
        -- split; [now left | intros [H'|H']; [discriminate H' | tauto]].
        -- split; [right; exists def; now left|].
           intros [H'|H']; [discriminate H' | tauto].
        -- split; [right; exists def'; now right|].
           intros [H'|H']; [discriminate H' | tauto].
      * intros [[H|[def' [[= <- <-]|H]]] Hnot].
        -- split; [tauto | intros H'; apply Hnot; now right].
        -- split; [left; right; now left | intros H'; apply Hnot; now right].
        -- split; [right; now exists def' | intros H'; apply Hnot; now right].
    + rewrite (proj1 (dropped _ _ laws _ _ _ _ Hs)), filter_In. split.
      * intros [[[H Hne]|[def' H]] Hnot].
        -- split; [now left|].
           intros [[= <-]|H']; [now rewrite String.eqb_refl in Hne | tauto].
        -- split; [right; exists def'; now right|].
           intros [[= <-]|H']; [|tauto].
           exact (Hapart key def' (or_intror H) (or_introl eq_refl)).
      * intros [[H|[def' [H|H]]] Hnot]; [|discriminate H|].
        -- split; [|intros H'; apply Hnot; now right].
           left. split; [exact H|].
           destruct (String.eqb_spec x key) as [->|_]; [|reflexivity].
           exfalso. apply Hnot. now left.
        -- split; [right; now exists def' | intros H'; apply Hnot; now right].
Qed.

(** After a synchronisation that went through, the columns of the table
    are its declared fields, and there is at least one. *)
Lemma sync_converges table (w w1 : World) config :
  lookup table (Tables_config w) = Some config ->
  sync table w = (Ok tt, w1) ->
  Tables_config w1 = assign table (declared table config) (Tables_config w)
  /\ columns table (db w1) <> []
  /\ forall x, In x (columns table (db w1))
               <-> In x (keys (Tables.fields (declared table config))).
Proof.
  intros Hconfig Hsync.
  pose proof (sync_registry _ _ _ Hconfig) as Hregistry. rewrite Hsync in Hregistry.
  split; [exact Hregistry|]. clear Hregistry.
  rewrite (sync_registered _ _ _ Hconfig) in Hsync. cbv zeta in Hsync.
  set (config' := declared table config) in *.
  set (adapter := createTableCaster (Tables_config w) table) in *.
  set (ks := keys (Tables.fields config')) in *.
  match type of Hsync with
  | context [bind _ _ ?w0] => set (w2 := w0) in *
  end.
  assert (Hconfig' : lookup table (Tables_config w2) = Some config')
    by apply lookup_assign_same.
  destruct (tableInfo (db w) table) as [|row info0] eqn:Einfo.
  - destruct (map_of_columnDef table adapter config' ks w2 Hconfig' (fun k H => H))
      as (defs & Hmap & _).
    unfold bind in Hsync. rewrite Hmap in Hsync.
    apply run_ok in Hsync as (_ & _ & Hcreate). simpl in Hcreate.
    destruct (created _ _ laws _ _ _ _ _ _ Hcreate) as [-> Hks]. split; [exact Hks | tauto].
  - rewrite <- Einfo in *. set (info := tableInfo (db w) table) in *.
    apply loop_ok in Hsync as (_ & _ & Hexec). simpl in Hexec.
    set (registry' := assign table config' (Tables_config w)) in *.
    set (plan := flat_map (planned' registry' table adapter ks info) (ks ++ map name info))
      in *.
    assert (Hplan : forall s, In s plan <->
              exists key, In key (ks ++ map name info)%list
                          /\ In s (planned' registry' table adapter ks info key))
      by (intros s; apply in_flat_map).
    assert (Halters : forall s, In s plan -> alters table s).
    { intros s Hs. apply Hplan in Hs as (key & _ & Hs).
      apply in_planned in Hs as [(_ & _ & def & _ & ->)|[_ ->]].
      - left. now exists key, def.
      - right. now exists key. }
    assert (Hadd : forall x def, In (AddColumn table x def) plan ->
                                 In x ks /\ ~ In x (map name info)).
    { intros x def Hs. apply Hplan in Hs as (key & _ & Hs).
      apply in_planned in Hs as [(Hks & Hsome & def' & _ & [= -> ->])|[_ H]];
        [|discriminate H].
      split; [now apply includes_In|].
      rewrite some_named_includes in Hsome. now apply includes_false. }
    assert (Hdrop : forall x, In (DropColumn table x) plan <->
                              In x (map name info) /\ ~ In x ks).
    { intros x. rewrite Hplan. split.
      - intros (key & Hkey & Hs).
        apply in_planned in Hs as [(_ & _ & def & _ & H)|[Hks [= ->]]];
          [discriminate H|].
        apply includes_false in Hks. apply in_app_iff in Hkey. tauto.
      - intros [Hx Hks]. exists x. split; [apply in_app_iff; now right|].
        apply in_planned. right. split; [now apply includes_false | reflexivity]. }
    split.
    + apply (executeAll_nonempty table plan Halters _ _ Hexec).
      fold info. rewrite Einfo. discriminate.
    + intros x.
      rewrite (executeAll_columns table plan Halters
                 (fun key def Ha Hd => proj2 (proj1 (Hdrop key) Hd) (proj1 (Hadd key def Ha)))
                 _ _ Hexec x).
      fold info. rewrite Hdrop. split.
      * intros [[H|[def H]] Hnot].
        -- destruct (in_dec string_dec x ks); tauto.
        -- exact (proj1 (Hadd x def H)).
      * intros Hx. split; [|tauto].
        destruct (in_dec string_dec x (map name info)) as [Hin|Hnotin]; [now left|].
        right.
        destruct (columnDef_declared registry' table x adapter config' Hconfig' Hx)
          as [def Hdef].
        exists def. apply Hplan. exists x. split; [apply in_app_iff; now left|].
        apply in_planned. left. repeat split.
        -- now apply includes_In.
        -- rewrite some_named_includes. now apply includes_false.
        -- now exists def.
Qed.

(** C6: when a synchronisation of a table went through, a second one,
    against the database file and the registry that the first one left,
    hands no statement to [run] and leaves the file as it is.  The file is
    any that obeys [Catalogue]. *)
Theorem C6_second_sync_runs_nothing table (w w1 : World) :
  sync table w = (Ok tt, w1) ->
  exists w2, sync table w1 = (Ok tt, w2) /\ ran w2 = ran w1 /\ db w2 = db w1.
Proof.
  intros Hsync.
  destruct (lookup table (Tables_config w)) as [config|] eqn:Hconfig.
  2: { destruct (sync_unregistered _ _ Hconfig) as [e He]. congruence. }
  destruct (sync_converges _ _ _ _ Hconfig Hsync) as (Hregistry & Hnonempty & Hcolumns).
  set (config' := declared table config) in *.
  assert (Hconfig' : lookup table (Tables_config w1) = Some config').
  { rewrite Hregistry. apply lookup_assign_same. }
  assert (Hagain : keys (Tables.fields (declared table config'))
                   = keys (Tables.fields config')).
  { subst config'. destruct (table =? "user"); [|reflexivity].
    apply withPlatforms_keys_again. }
  rewrite (sync_registered _ _ _ Hconfig'). cbv zeta. rewrite Hagain.
  destruct (tableInfo (db w1) table) as [|row info0] eqn:Einfo; [now elim Hnonempty|].
  rewrite <- Einfo in *. rewrite loop_skip.
  - eexists. split; [reflexivity|]. split; reflexivity.
  - intros key Hkey. rewrite some_named_includes. apply andb_true_iff.
    rewrite !includes_In.
    apply in_app_iff in Hkey as [Hkey|Hkey]; [|apply Hcolumns in Hkey]; split;
      try exact Hkey; now apply Hcolumns.
Qed.

End Idempotence.

(** ** More on [syncTable] *)
Section SyncMore.

(** X1: synchronising a registered table that has no column yet hands
    exactly one statement to [run], whether the file accepts it or not: a
    [CREATE TABLE] with one column definition for each declared field, in the
    order of the fields, and the constraints of the config.  The declared
    fields are those of the config that the synchronisation leaves in the
    registry. *)
Theorem sync_creates_absent_table table (w : World) config :
  lookup table (Tables_config w) = Some config ->
  tableInfo (db w) table = [] ->
  exists config' defs,
    lookup table (Tables_config (snd (sync table w))) = Some config'
    /\ ran (snd (sync table w))
       = (ran w ++ [CreateTable table (keys (Tables.fields config')) defs
                      (constraintsOf escapeId config')])%list
    /\ Forall2 (fun key def =>
                  columnDef (Tables_config (snd (sync table w))) table key
                    (createTableCaster (Tables_config w) table) = Ok def)
               (keys (Tables.fields config')) defs.
Proof.
  intros Hconfig Hinfo.
  set (config' := declared table config).
  pose proof (sync_registry _ _ _ Hconfig) as Hregistry.
  rewrite (sync_registered _ _ _ Hconfig) in *. cbv zeta in *. rewrite Hinfo in *.
  fold config' in Hregistry |- *.
  match goal with
  | |- context [bind _ _ ?w0] => set (w2 := w0) in *
  end.
  assert (Hconfig' : lookup table (Tables_config w2) = Some config')
    by apply lookup_assign_same.
  destruct (map_of_columnDef table (createTableCaster (Tables_config w) table)
              config' (keys (Tables.fields config')) w2 Hconfig' (fun k H => H))
    as (defs & Hmap & Hdefs).
  exists config', defs. unfold bind in *. rewrite Hmap in *.
  rewrite Hregistry, run_ran. repeat split.
  - apply lookup_assign_same.
  - exact Hdefs.
Qed.

Lemma for_of_reaches {S A : Type} (R : S -> S -> Prop) (body : A -> M S unit) :
  (forall s, R s s) ->
  (forall a b c, R a b -> R b c -> R a c) ->
  (forall x s, R s (snd (body x s))) ->
  forall items s, R s (snd (for_of items body s)).
Proof.
  intros Hrefl Htrans Hbody. induction items as [|x items IH]; intros s; simpl.
  - apply Hrefl.
  - unfold bind. specialize (Hbody x s).
    destruct (body x s) as [[u|e] s']; simpl in *; [|exact Hbody].
    exact (Htrans _ _ _ Hbody (IH s')).
Qed.

(** What a world has more than another: statements about [table]. *)
Local Abbreviation ranOn table w w' :=
  (exists statements,
      ran w' = (ran w ++ statements)%list
      /\ Forall (fun s => tableOf s = table) statements).

Lemma run_ranOn s (w : World) : ranOn (tableOf s) w (snd (run' s w)).
Proof. exists [s]. rewrite run_ran. split; [reflexivity | now constructor]. Qed.

Lemma alter_ranOn table adapter ks info key (w : World) :
  ranOn table w (snd (alter' table adapter ks info key w)).
Proof.
  unfold alter. destruct (_ && _).
  { exists []. simpl. now rewrite app_nil_r. }
  destruct (includes ks key).
  - unfold bind. destruct (columnDef _ _ _ _) as [def|e]; simpl.
    + apply (run_ranOn (AddColumn table key def)).
    + exists []. now rewrite app_nil_r.
  - apply (run_ranOn (DropColumn table key)).
Qed.

Lemma sync_ranOn table (w : World) :
  exists statements,
    ran (snd (sync table w)) = (ran w ++ statements)%list
    /\ Forall (fun s => tableOf s = table) statements.
Proof.
  destruct (lookup table (Tables_config w)) as [config|] eqn:Hconfig.
  2: { destruct (sync_unregistered _ _ Hconfig) as [e ->]. exists []. simpl.
       now rewrite app_nil_r. }
  rewrite (sync_registered _ _ _ Hconfig). cbv zeta.
  destruct (tableInfo (db w) table) as [|row info0].
  - unfold bind.
    match goal with
    | |- context [map_of ?ks ?f ?w0] =>
        pose proof (map_of_preserves (fun s : World => s) f (fun x s => eq_refl) ks w0)
          as Hsame;
        destruct (map_of ks f w0) as [[defs|e] w1]
    end; simpl in Hsame; subst.
    + match goal with
      | |- context [run' ?s ?w0] => apply (run_ranOn s w0)
      end.
    + exists []. simpl. now rewrite app_nil_r.
  - match goal with
    | |- context [for_of ?l ?body ?w0] =>
        apply (for_of_reaches (fun a b : World => ranOn table a b) body) with (s := w0)
    end.
    + intros s. exists []. now rewrite app_nil_r.
    + intros a b c (l1 & H1 & F1) (l2 & H2 & F2). exists (l1 ++ l2)%list.
      rewrite H2, H1, app_assoc. split; [reflexivity | now apply Forall_app].
    + intros key s. apply alter_ranOn.
Qed.

(** X2: whatever [syncTable] hands to [run], also when it ends in an error,
    is a statement about the table that is synchronised: no other table is
    altered, created or dropped. *)
Theorem sync_runs_on_its_table table (w : World) :
  exists statements,
    ran (snd (sync table w)) = (ran w ++ statements)%list
    /\ Forall (fun s => tableOf s = table) statements.
Proof. exact (sync_ranOn table w). Qed.

Lemma sync_skips table (w : World) config :
  lookup table (Tables_config w) = Some config ->
  tableInfo (db w) table <> [] ->
  (forall x, In x (map name (tableInfo (db w) table))
             <-> In x (keys (Tables.fields (declared table config)))) ->
  exists w', sync table w = (Ok tt, w') /\ ran w' = ran w /\ db w' = db w.
Proof.
  intros Hconfig Hinfo Hsame.
  rewrite (sync_registered _ _ _ Hconfig). cbv zeta.
  destruct (tableInfo (db w) table) as [|row info0] eqn:Einfo; [contradiction|].
  rewrite <- Einfo in *. rewrite loop_skip.
  - eexists. split; [reflexivity|]. split; reflexivity.
  - intros key Hkey. rewrite some_named_includes. apply andb_true_iff.
    rewrite !includes_In.
    apply in_app_iff in Hkey as [Hkey|Hkey]; [|apply Hsame in Hkey]; split;
      try exact Hkey; now apply Hsame.
Qed.

(** X3: when the names of the columns of a table are the names of its
    declared fields, [syncTable] hands nothing to [run] and leaves the file as
    it is, whatever type, nullability, default and primary-key flag the
    columns have: only names are compared. *)
Theorem sync_leaves_matching_columns table (w : World) config :
  lookup table (Tables_config w) = Some config ->
  tableInfo (db w) table <> [] ->
  (forall x, In x (map name (tableInfo (db w) table))
             <-> In x (keys (Tables.fields (declared table config)))) ->
  exists w', sync table w = (Ok tt, w') /\ ran w' = ran w /\ db w' = db w.
Proof. exact (sync_skips table w config). Qed.

Lemma planned_declared registry table adapter ks info (rest : list string) :
  (forall key, In key rest -> includes ks key = true) ->
  (forall key, In key rest ->
               exists def, columnDef registry table key adapter = Ok def) ->
  exists adds,
    flat_map (planned' registry table adapter ks info) rest = adds
    /\ Forall2 (fun key s =>
                  exists def, s = AddColumn table key def
                              /\ columnDef registry table key adapter = Ok def)
               (filter (fun key => negb (some_named info key)) rest) adds.
Proof.
  induction rest as [|key rest IH]; intros Hks Hdef; simpl.
  - exists []. split; [reflexivity | constructor].
  - destruct IH as (adds & Hadds & Hall).
    { intros k Hk. apply Hks. now right. }
    { intros k Hk. apply Hdef. now right. }
    unfold planned at 1. rewrite (Hks key (or_introl eq_refl)). simpl.
    destruct (some_named info key); simpl.
    + now exists adds.
    + destruct (Hdef key (or_introl eq_refl)) as [def Hkey]. rewrite Hkey. simpl.
      exists (AddColumn table key def :: adds). rewrite Hadds. split; [reflexivity|].
      constructor; [now exists def | exact Hall].
Qed.

Lemma planned_physical registry table adapter ks info (rest : list string) :
  (forall key, In key rest -> some_named info key = true) ->
  flat_map (planned' registry table adapter ks info) rest
  = map (DropColumn table) (filter (fun key => negb (includes ks key)) rest).
Proof.
  induction rest as [|key rest IH]; intros Hinfo; simpl; [reflexivity|].
  rewrite IH by (intros k Hk; apply Hinfo; now right).
  unfold planned. rewrite (Hinfo key (or_introl eq_refl)).
  now destruct (includes ks key).
Qed.

(** X4: in a synchronisation that goes through on a table with columns, the
    statements come in this order: first the [ADD COLUMN] statements, one for
    each declared field that is no column, in the order of the fields, then
    the [DROP COLUMN] statements, one for each column that is no declared
    field, in the order of the columns. *)
Theorem sync_adds_before_it_drops table (w w' : World) config :
  lookup table (Tables_config w) = Some config ->
  tableInfo (db w) table <> [] ->
  sync table w = (Ok tt, w') ->
  exists adds,
    ran w'
    = (ran w ++ adds
       ++ map (DropColumn table)
            (filter (fun key =>
                       negb (includes (keys (Tables.fields (declared table config))) key))
                    (map name (tableInfo (db w) table))))%list
    /\ Forall2 (fun key s =>
                  exists def, s = AddColumn table key def
                              /\ columnDef (Tables_config w') table key
                                   (createTableCaster (Tables_config w) table) = Ok def)
               (filter (fun key => negb (some_named (tableInfo (db w) table) key))
                       (keys (Tables.fields (declared table config))))
               adds.
Proof.
  intros Hconfig Hinfo Hsync.
  rewrite (sync_registered _ _ _ Hconfig) in Hsync. cbv zeta in Hsync.
  set (config' := declared table config) in *.
  set (adapter := createTableCaster (Tables_config w) table) in *.
  set (ks := keys (Tables.fields config')) in *.
  destruct (tableInfo (db w) table) as [|row info0] eqn:Einfo; [contradiction|].
  rewrite <- Einfo in *. set (info := tableInfo (db w) table) in *.
  apply loop_ok in Hsync as (Hregistry & Hran & _). simpl in Hregistry, Hran.
  set (registry' := assign table config' (Tables_config w)) in *.
  assert (Hconfig' : lookup table registry' = Some config') by apply lookup_assign_same.
  destruct (planned_declared registry' table adapter ks info ks) as (adds & Hadds & Hall).
  { intros key Hkey. now apply includes_In. }
  { intros key Hkey. exact (columnDef_declared _ _ _ _ _ Hconfig' Hkey). }
  exists adds. rewrite Hregistry. split; [|exact Hall].
  rewrite Hran, flat_map_app, Hadds, planned_physical; [reflexivity|].
  intros key Hkey. rewrite some_named_includes. now apply includes_In.
Qed.

Lemma declared_again table config :
  keys (Tables.fields (declared table (declared table config)))
  = keys (Tables.fields (declared table config)).
Proof. destruct (table =? "user"); [apply withPlatforms_keys_again | reflexivity]. Qed.

Lemma sync_registry_other table other (w : World) :
  other <> table ->
  lookup other (Tables_config (snd (sync table w))) = lookup other (Tables_config w).
Proof.
  intros Hother. destruct (lookup table (Tables_config w)) as [config|] eqn:Hconfig.
  - rewrite (sync_registry _ _ _ Hconfig). now apply lookup_assign_other.
  - destruct (sync_unregistered _ _ Hconfig) as [e ->]. reflexivity.
Qed.

Lemma sync_keys table (w : World) :
  keys (Tables_config (snd (sync table w))) = keys (Tables_config w)
  /\ ((forall t config, lookup t (Tables_config w) = Some config ->
                        NoDup (keys (Tables.fields config))) ->
      forall t config, lookup t (Tables_config (snd (sync table w))) = Some config ->
                       NoDup (keys (Tables.fields config))).
Proof.
  destruct (lookup table (Tables_config w)) as [config|] eqn:Hconfig.
  - rewrite (sync_registry _ _ _ Hconfig). split.
    + apply keys_assign_in. apply lookup_in_keys. now exists config.
    + intros Hwf t c. destruct (String.eqb_spec t table) as [->|Hne].
      * rewrite lookup_assign_same. intros [= <-].
        destruct (table =? "user"); [|exact (Hwf _ _ Hconfig)].
        apply withPlatforms_keys_NoDup. exact (Hwf _ _ Hconfig).
      * rewrite lookup_assign_other by exact Hne. apply Hwf.
  - destruct (sync_unregistered _ _ Hconfig) as [e ->]. simpl. split; [reflexivity|].
    intros Hwf. exact Hwf.
Qed.

(** X5: [syncTable] registers and unregisters no table, and it leaves the
    field names of every registered table without repetition. *)
Theorem sync_keeps_registry_shape table (w : World) :
  keys (Tables_config (snd (sync table w))) = keys (Tables_config w)
  /\ ((forall t config, lookup t (Tables_config w) = Some config ->
                        NoDup (keys (Tables.fields config))) ->
      forall t config, lookup t (Tables_config (snd (sync table w))) = Some config ->
                       NoDup (keys (Tables.fields config))).
Proof. exact (sync_keys table w). Qed.


(** X7: with [autoInc] set and the primary key given as a list of names,
    no primary key is declared at all: [autoInc] changes no column definition
    (each is what it is without [autoInc]), yet it keeps the primary-key
    constraint out of the [CREATE TABLE] statement. *)
Theorem autoInc_with_list_primary_declares_no_key
  registry table config names key adapter :
  lookup table registry = Some config ->
  Tables.primary config = Tables.Many names ->
  Tables.autoInc config = true ->
  constraintsOf escapeId config
  = (map (uniqueKey escapeId) (Tables.unique config)
     ++ map (foreignKey escapeId) (Tables.foreign config))%list
  /\ columnDef registry table key adapter
     = columnDef
         (assign table
            {| Tables.fields := Tables.fields config;
               Tables.primary := Tables.primary config;
               Tables.autoInc := false;
               Tables.unique := Tables.unique config;
               Tables.foreign := Tables.foreign config |}
            registry)
         table key adapter.
Proof.
  intros Hconfig Hprimary Hauto. split.
  - unfold constraintsOf. now rewrite Hauto, andb_false_r.
  - unfold getColumnDefinitionSQL. rewrite Hconfig, lookup_assign_same. simpl.
    now rewrite Hprimary.
Qed.

End SyncMore.

(** ** [start]: every registered table in turn *)
Section Startup.

Local Abbreviation start' :=
  (start escapeId escape createTableCaster dump tableInfo execute bots).

Lemma for_of_reaches_in {S A : Type} (R : S -> S -> Prop) (body : A -> M S unit)
  (items : list A) :
  (forall s, R s s) ->
  (forall a b c, R a b -> R b c -> R a c) ->
  (forall x s, In x items -> R s (snd (body x s))) ->
  forall s, R s (snd (for_of items body s)).
Proof.
  intros Hrefl Htrans. induction items as [|x items IH]; intros Hbody s; simpl.
  - apply Hrefl.
  - unfold bind. pose proof (Hbody x s (or_introl eq_refl)) as Hx.
    destruct (body x s) as [[u|e] s']; simpl in *; [|exact Hx].
    apply (Htrans _ _ _ Hx). apply IH. intros y t Hy. apply Hbody. now right.
Qed.

(** X8: [start] hands to [run] only statements about registered tables,
    also when it ends in an error: a table of the file that is not registered
    is never altered or dropped. *)
Theorem start_runs_on_registered_tables opened (w : World) :
  exists statements,
    ran (snd (start' opened w)) = (ran w ++ statements)%list
    /\ Forall (fun s => In (tableOf s) (keys (Tables_config w))) statements.
Proof.
  unfold start.
  set (w0 := {| Tables_config := Tables_config w; dbAdapters := dbAdapters w;
                db := opened; ran := ran w |}).
  change (ran w) with (ran w0).
  apply (for_of_reaches_in
           (fun a b : World =>
              exists statements,
                ran b = (ran a ++ statements)%list
                /\ Forall (fun s => In (tableOf s) (keys (Tables_config w))) statements)
           sync (keys (Tables_config w))
           (fun s => ex_intro _ [] (conj (eq_sym (app_nil_r _)) (Forall_nil _)))).
  - intros a b c (l1 & H1 & F1) (l2 & H2 & F2). exists (l1 ++ l2)%list.
    rewrite H2, H1, app_assoc. split; [reflexivity | now apply Forall_app].
  - intros table s Htable.
    destruct (sync_ranOn table s) as (statements & Hran & Hall).
    exists statements. split; [exact Hran|].
    eapply Forall_impl; [|exact Hall]. intros st Hst. simpl in Hst. now rewrite Hst.
Qed.

Hypothesis laws : Catalogue tableInfo execute.
Hypothesis apart : Separate tableInfo execute.

(** The columns of [table] are its declared fields, and there are some. *)
Local Abbreviation converged table w :=
  (exists config,
      lookup table (Tables_config w) = Some config
      /\ tableInfo (db w) table <> []
      /\ forall x, In x (map name (tableInfo (db w) table))
                   <-> In x (keys (Tables.fields (declared table config)))).

Lemma sync_converged table (w w1 : World) :
  sync table w = (Ok tt, w1) -> converged table w1.
Proof.
  intros Hsync.
  destruct (lookup table (Tables_config w)) as [config|] eqn:Hconfig.
  2: { destruct (sync_unregistered _ _ Hconfig) as [e He]. congruence. }
  destruct (sync_converges laws _ _ _ _ Hconfig Hsync) as (Hregistry & Hnonempty & Hcolumns).
  exists (declared table config). repeat split.
  - rewrite Hregistry. apply lookup_assign_same.
  - intros Hnone. apply Hnonempty. now rewrite Hnone.
  - rewrite declared_again. apply Hcolumns.
  - rewrite declared_again. apply Hcolumns.
Qed.

Lemma executeAll_elsewhere table other (statements : list Statement) :
  other <> table ->
  Forall (fun s => tableOf s = table) statements ->
  forall f f', executeAll execute statements f = Some f' ->
               tableInfo f' other = tableInfo f other.
Proof.
  intros Hother. induction 1 as [|s statements Hs _ IH]; intros f f'; simpl.
  - now intros [= <-].
  - destruct (execute s f) as [f1|] eqn:Hexec; [|discriminate].
    intros Hrest. rewrite (IH _ _ Hrest).
    apply (elsewhere _ _ apart _ _ _ _ Hexec). now rewrite Hs.
Qed.

Lemma sync_elsewhere table other (w w1 : World) :
  other <> table ->
  sync table w = (Ok tt, w1) ->
  tableInfo (db w1) other = tableInfo (db w) other.
Proof.
  intros Hother Hsync.
  destruct (lookup table (Tables_config w)) as [config|] eqn:Hconfig.
  2: { destruct (sync_unregistered _ _ Hconfig) as [e He]. congruence. }
  rewrite (sync_registered _ _ _ Hconfig) in Hsync. cbv zeta in Hsync.
  destruct (tableInfo (db w) table) as [|row info0] eqn:Einfo.
  - match type of Hsync with
    | context [bind _ _ ?w0] => set (w2 := w0) in *
    end.
    destruct (map_of_columnDef table (createTableCaster (Tables_config w) table)
                (declared table config) (keys (Tables.fields (declared table config)))
                w2 (lookup_assign_same _ _ _) (fun k H => H))
      as (defs & Hmap & _).
    unfold bind in Hsync. rewrite Hmap in Hsync.
    apply run_ok in Hsync as (_ & _ & Hcreate).
    now apply (elsewhere _ _ apart _ _ _ other Hcreate).
  - rewrite <- Einfo in *.
    apply loop_ok in Hsync as (_ & _ & Hexec). simpl in Hexec.
    apply (executeAll_elsewhere table other _ Hother) in Hexec; [exact Hexec|].
    apply Forall_forall. intros s Hs. apply in_flat_map in Hs as (key & _ & Hs).
    apply in_planned in Hs as [(_ & _ & def & _ & ->)|[_ ->]]; reflexivity.
Qed.

Lemma sync_keeps_converged table other (w w1 : World) :
  other <> table ->
  sync table w = (Ok tt, w1) ->
  converged other w -> converged other w1.
Proof.
  intros Hother Hsync (config & Hconfig & Hnonempty & Hcolumns).
  exists config.
  rewrite (sync_elsewhere _ _ _ _ Hother Hsync).
  replace w1 with (snd (sync table w)) by now rewrite Hsync.
  rewrite sync_registry_other by exact Hother. auto.
Qed.

Lemma first_start (tables : list string) :
  NoDup tables ->
  forall w w1 : World,
    for_of tables sync w = (Ok tt, w1) ->
    forall table, In table tables -> converged table w1.
Proof.
  induction 1 as [|t tables Hnotin _ IH]; intros w w1; simpl; [now intros _ ? []|].
  unfold bind. destruct (sync t w) as [[[]|e] wa] eqn:Ht; [|discriminate].
  intros Hrest table [<-|Hin]; [|exact (IH _ _ Hrest table Hin)].
  pose proof (sync_converged _ _ _ Ht) as Hconverged.
  clear IH Ht. revert wa Hrest Hconverged.
  induction tables as [|t' tables IH]; intros wa; simpl.
  - now intros [= <-].
  - unfold bind. destruct (sync t' wa) as [[[]|e] wb] eqn:Ht'; [|discriminate].
    intros Hrest Hconverged. apply (IH (fun H => Hnotin (or_intror H)) wb Hrest).
    apply (sync_keeps_converged t' t wa wb); [|exact Ht' | exact Hconverged].
    intros ->. apply Hnotin. now left.
Qed.

Lemma second_start (tables : list string) :
  forall w : World,
    (forall table, In table tables -> converged table w) ->
    exists w2, for_of tables sync w = (Ok tt, w2) /\ ran w2 = ran w /\ db w2 = db w.
Proof.
  induction tables as [|t tables IH]; intros w Hall; simpl.
  - exists w. repeat split.
  - destruct (Hall t (or_introl eq_refl)) as (config & Hconfig & Hnonempty & Hcolumns).
    destruct (sync_skips t w config Hconfig Hnonempty Hcolumns)
      as (wa & Ht & Hran & Hdb).
    pose proof (sync_registry t w config Hconfig) as Hregistry.
    rewrite Ht in Hregistry. simpl in Hregistry.
    destruct (IH wa) as (w2 & Hrest & Hran2 & Hdb2).
    { intros table Hin.
      destruct (Hall table (or_intror Hin)) as (c & Hc & Hne & Hcols).
      rewrite Hdb, Hregistry.
      destruct (String.eqb_spec table t) as [->|Hother].
      - exists (declared t config). rewrite lookup_assign_same, declared_again.
        rewrite Hc in Hconfig. injection Hconfig as ->. auto.
      - exists c. rewrite lookup_assign_other by exact Hother. auto. }
    exists w2. unfold bind. rewrite Ht. split; [exact Hrest|]. split; congruence.
Qed.

(** X9: when [start] went through, starting again on the file it left hands
    nothing to [run] and leaves the file as it is: the schema of every
    registered table has converged.  The file is any that obeys [Catalogue]
    and [Separate]; the names of the registered tables do not repeat. *)
Theorem start_again_runs_nothing opened (w w1 : World) :
  NoDup (keys (Tables_config w)) ->
  start' opened w = (Ok tt, w1) ->
  exists w2, start' (db w1) w1 = (Ok tt, w2) /\ ran w2 = ran w1 /\ db w2 = db w1.
Proof.
  unfold start. intros Hnames Hstart.
  set (w0 := {| Tables_config := Tables_config w; dbAdapters := dbAdapters w;
                db := opened; ran := ran w |}) in *.
  change (Tables_config w) with (Tables_config w0) in Hnames, Hstart.
  assert (Hkeys : keys (Tables_config w1) = keys (Tables_config w0)).
  { replace w1 with (snd (for_of (keys (Tables_config w0)) sync w0))
      by now rewrite Hstart.
    apply (for_of_preserves (fun s : World => keys (Tables_config s))).
    intros table s. apply sync_keys. }
  assert (Hw1 : {| Tables_config := Tables_config w1; dbAdapters := dbAdapters w1;
                   db := db w1; ran := ran w1 |} = w1) by now destruct w1.
  rewrite Hw1, Hkeys.
  apply second_start. exact (first_start _ Hnames _ _ Hstart).
Qed.

End Startup.

End SyncFacts.

(** ** The synchroniser on a database file given by its columns *)
Section SyncExamples.

Import Sqlite Samples.

Lemma names_of_columns (columns : list string) : map name (map column columns) = columns.
Proof. rewrite map_map. simpl. apply map_id. Qed.

Lemma Columns_Catalogue : Catalogue columnsOf apply.
Proof.
  split.
  - intros table columns defs constraints f f'. simpl.
    destruct (lookup table f); [discriminate|].
    destruct columns as [|c columns]; [discriminate|]. intros [= <-].
    unfold columnsOf. rewrite lookup_assign_same, names_of_columns.
    split; [reflexivity | discriminate].
  - intros table key def f f'. simpl. unfold columnsOf.
    destruct (lookup table f) as [columns|]; [|discriminate].
    destruct (includes columns key); [discriminate|]. intros [= <-].
    now rewrite lookup_assign_same, !names_of_columns.
  - intros table key f f'. simpl. unfold columnsOf.
    destruct (lookup table f) as [columns|]; [|discriminate].
    destruct (filter (fun k => negb (k =? key)) columns) as [|c rest] eqn:Hrest;
      [discriminate|].
    destruct (includes columns key); [|discriminate]. intros [= <-].
    rewrite lookup_assign_same, !names_of_columns, Hrest.
    split; [reflexivity | discriminate].
Qed.

Lemma C5_alter_adds_missing_and_drops_undeclared_witness :
  lookup "user" (Tables_config oldFile) = Some userConfig
  /\ NoDup (keys (Tables.fields userConfig))
  /\ NoDup (map name (columnsOf (db oldFile) "user"))
  /\ columnsOf (db oldFile) "user" <> []
  /\ synchronise "user" oldFile = (Ok tt, snd (synchronise "user" oldFile))
  /\ ran (snd (synchronise "user" oldFile))
     = [AddColumn "user" "authority" "`authority` INTEGER NOT NULL DEFAULT 0";
        AddColumn "user" "onebot" "`onebot` TEXT NULL";
        AddColumn "user" "discord" "`discord` TEXT NULL";
        DropColumn "user" "legacy"]
  /\ exists config' emitted,
       lookup "user" (Tables_config (snd (synchronise "user" oldFile))) = Some config'
       /\ ran (snd (synchronise "user" oldFile)) = (ran oldFile ++ emitted)%list
       /\ (forall key,
              count (isAdd key) emitted
              = if includes (keys (Tables.fields config')) key
                   && negb (some_named (columnsOf (db oldFile) "user") key)
                then 1 else 0)
       /\ (forall key,
              count (isDrop key) emitted
              = if some_named (columnsOf (db oldFile) "user") key
                   && negb (includes (keys (Tables.fields config')) key)
                then 1 else 0)
       /\ (forall s, In s emitted ->
              (exists key def,
                  s = AddColumn "user" key def
                  /\ getColumnDefinitionSQL backtick literal dumped
                       (Tables_config (snd (synchronise "user" oldFile))) "user" key
                       (caster (Tables_config oldFile) "user") = Ok def)
              \/ (exists key, s = DropColumn "user" key)).
Proof.
  assert (Hfields : NoDup (keys (Tables.fields userConfig))).
  { simpl. repeat constructor; simpl; intuition discriminate. }
  assert (Hcolumns : NoDup (map name (columnsOf (db oldFile) "user"))).
  { simpl. repeat constructor; simpl; intuition discriminate. }
  assert (Hthere : columnsOf (db oldFile) "user" <> []) by discriminate.
  repeat (split; [first [reflexivity | assumption]|]).
  exact (C5_alter_adds_missing_and_drops_undeclared
           backtick literal unit caster dumped Columns columnsOf apply someBots
           "user" oldFile (snd (synchronise "user" oldFile)) userConfig
           eq_refl Hfields Hcolumns Hthere eq_refl).
Defined.

Lemma C6_second_sync_runs_nothing_witness :
  Catalogue columnsOf apply
  /\ synchronise "user" oldFile = (Ok tt, snd (synchronise "user" oldFile))
  /\ exists w2,
       synchronise "user" (snd (synchronise "user" oldFile)) = (Ok tt, w2)
       /\ ran w2 = ran (snd (synchronise "user" oldFile))
       /\ db w2 = db (snd (synchronise "user" oldFile)).
Proof.
  split; [exact Columns_Catalogue|]. split; [reflexivity|].
  exact (C6_second_sync_runs_nothing
           backtick literal unit caster dumped Columns columnsOf apply someBots
           Columns_Catalogue "user" oldFile (snd (synchronise "user" oldFile)) eq_refl).
Defined.

Lemma C10_autoInc_primary_column_witness :
  lookup "user" (Tables_config emptyFile) = Some userConfig
  /\ Tables.autoInc userConfig = true
  /\ Tables.primary userConfig = Tables.One "id"
  /\ lookup "id" (Tables.fields userConfig) = Some (userField VUndefined)
  /\ ran (snd (synchronise "user" emptyFile))
     = [CreateTable "user" ["id"; "authority"; "onebot"; "discord"]
          ["`id` INTEGER NOT NULL PRIMARY KEY AUTOINCREMENT";
           "`authority` INTEGER NOT NULL DEFAULT 0";
           "`onebot` TEXT NULL"; "`discord` TEXT NULL"]
          ["UNIQUE (`onebot`)"; "UNIQUE (`discord`)"]]
  /\ (forall adapter,
         getColumnDefinitionSQL backtick literal dumped (Tables_config emptyFile)
           "user" "id" adapter
         = Ok (backtick "id" ++ " INTEGER NOT NULL PRIMARY KEY AUTOINCREMENT"))
  /\ (columnsOf (db emptyFile) "user" = [] ->
      exists config' defs,
        lookup "user" (Tables_config (snd (synchronise "user" emptyFile))) = Some config'
        /\ ran (snd (synchronise "user" emptyFile))
           = (ran emptyFile
              ++ [CreateTable "user" (keys (Tables.fields config')) defs
                    (map (uniqueKey backtick) (Tables.unique config')
                     ++ map (foreignKey backtick) (Tables.foreign config'))])%list
        /\ In (backtick "id" ++ " INTEGER NOT NULL PRIMARY KEY AUTOINCREMENT") defs).
Proof.
  do 5 (split; [reflexivity|]).
  exact (C10_autoInc_primary_column
           backtick literal unit caster dumped Columns columnsOf apply someBots
           "user" emptyFile userConfig "id" (userField VUndefined)
           eq_refl eq_refl eq_refl eq_refl).
Defined.

Lemma Columns_Separate : Separate columnsOf apply.
Proof.
  split. intros s f f' other Hexec Hother. unfold columnsOf.
  destruct s as [table key def|table key|table columns defs constraints];
    simpl in Hexec, Hother.
  - destruct (lookup table f) as [present|]; [|discriminate].
    destruct (includes present key); [discriminate|]. injection Hexec as <-.
    now rewrite lookup_assign_other.
  - destruct (lookup table f) as [present|]; [|discriminate].
    destruct (filter _ present); [discriminate|].
    destruct (includes present key); [|discriminate]. injection Hexec as <-.
    now rewrite lookup_assign_other.
  - destruct (lookup table f); [discriminate|].
    destruct columns; [discriminate|]. injection Hexec as <-.
    now rewrite lookup_assign_other.
Qed.

Lemma sync_creates_absent_table_witness :
  lookup "channel" (Tables_config emptyFile) = Some channelConfig
  /\ columnsOf (db emptyFile) "channel" = []
  /\ ran (snd (synchronise "channel" emptyFile))
     = [CreateTable "channel" ["id"; "flag"]
          ["`id` INTEGER NULL"; "`flag` INTEGER NOT NULL DEFAULT 0"]
          ["PRIMARY KEY (`id`)"]]
  /\ exists config' defs,
       lookup "channel" (Tables_config (snd (synchronise "channel" emptyFile)))
       = Some config'
       /\ ran (snd (synchronise "channel" emptyFile))
          = (ran emptyFile
             ++ [CreateTable "channel" (keys (Tables.fields config')) defs
                   (constraintsOf backtick config')])%list
       /\ Forall2 (fun key def =>
                     getColumnDefinitionSQL backtick literal dumped
                       (Tables_config (snd (synchronise "channel" emptyFile)))
                       "channel" key (caster (Tables_config emptyFile) "channel")
                     = Ok def)
                  (keys (Tables.fields config')) defs.
Proof.
  do 3 (split; [reflexivity|]).
  exact (sync_creates_absent_table
           backtick literal unit caster dumped Columns columnsOf apply someBots
           "channel" emptyFile channelConfig eq_refl eq_refl).
Defined.

Lemma sync_leaves_matching_columns_witness :
  lookup "user" (Tables_config (world twoTables [("user", ["discord"; "id"; "onebot"; "authority"])]))
  = Some userConfig
  /\ columnsOf [("user", ["discord"; "id"; "onebot"; "authority"])] "user" <> []
  /\ exists w',
       synchronise "user" (world twoTables [("user", ["discord"; "id"; "onebot"; "authority"])])
       = (Ok tt, w')
       /\ ran w' = []
       /\ db w' = [("user", ["discord"; "id"; "onebot"; "authority"])].
Proof.
  split; [reflexivity|]. split; [discriminate|].
  apply (sync_leaves_matching_columns
           backtick literal unit caster dumped Columns columnsOf apply someBots
           "user" (world twoTables [("user", ["discord"; "id"; "onebot"; "authority"])])
           userConfig eq_refl).
  - discriminate.
  - intros x. simpl. tauto.
Defined.

Lemma sync_adds_before_it_drops_witness :
  lookup "user" (Tables_config oldFile) = Some userConfig
  /\ columnsOf (db oldFile) "user" <> []
  /\ synchronise "user" oldFile = (Ok tt, snd (synchronise "user" oldFile))
  /\ exists adds,
       ran (snd (synchronise "user" oldFile))
       = (ran oldFile ++ adds ++ [DropColumn "user" "legacy"])%list
       /\ Forall2 (fun key s =>
                     exists def,
                       s = AddColumn "user" key def
                       /\ getColumnDefinitionSQL backtick literal dumped
                            (Tables_config (snd (synchronise "user" oldFile))) "user" key
                            (caster (Tables_config oldFile) "user") = Ok def)
                  ["authority"; "onebot"; "discord"] adds.
Proof.
  split; [reflexivity|]. split; [discriminate|]. split; [reflexivity|].
  apply (sync_adds_before_it_drops
           backtick literal unit caster dumped Columns columnsOf apply someBots
           "user" oldFile (snd (synchronise "user" oldFile)) userConfig eq_refl).
  - discriminate.
  - reflexivity.
Defined.


Lemma autoInc_with_list_primary_declares_no_key_witness :
  lookup "binding" [("binding", pairConfig)] = Some pairConfig
  /\ Tables.primary pairConfig = Tables.Many ["pid"; "platform"]
  /\ Tables.autoInc pairConfig = true
  /\ constraintsOf backtick pairConfig = []
  /\ getColumnDefinitionSQL backtick literal dumped [("binding", pairConfig)]
       "binding" "pid" tt
     = Ok "`pid` INTEGER NULL".
Proof.
  do 3 (split; [reflexivity|]).
  exact (autoInc_with_list_primary_declares_no_key
           backtick literal unit dumped [("binding", pairConfig)] "binding" pairConfig
           ["pid"; "platform"] "pid" tt eq_refl eq_refl eq_refl).
Defined.

Lemma start_again_runs_nothing_witness :
  Catalogue columnsOf apply
  /\ Separate columnsOf apply
  /\ NoDup (keys (Tables_config emptyFile))
  /\ boot [("user", ["id"; "legacy"])] emptyFile
     = (Ok tt, snd (boot [("user", ["id"; "legacy"])] emptyFile))
  /\ ran (snd (boot [("user", ["id"; "legacy"])] emptyFile))
     = [AddColumn "user" "authority" "`authority` INTEGER NOT NULL DEFAULT 0";
        AddColumn "user" "onebot" "`onebot` TEXT NULL";
        AddColumn "user" "discord" "`discord` TEXT NULL";
        DropColumn "user" "legacy";
        CreateTable "channel" ["id"; "flag"]
          ["`id` INTEGER NULL"; "`flag` INTEGER NOT NULL DEFAULT 0"]
          ["PRIMARY KEY (`id`)"]]
  /\ exists w2,
       boot (db (snd (boot [("user", ["id"; "legacy"])] emptyFile)))
         (snd (boot [("user", ["id"; "legacy"])] emptyFile))
       = (Ok tt, w2)
       /\ ran w2 = ran (snd (boot [("user", ["id"; "legacy"])] emptyFile))
       /\ db w2 = db (snd (boot [("user", ["id"; "legacy"])] emptyFile)).
Proof.
  assert (Hnames : NoDup (keys (Tables_config emptyFile))).
  { simpl. repeat constructor; simpl; intuition discriminate. }
  split; [exact Columns_Catalogue|]. split; [exact Columns_Separate|].
  split; [exact Hnames|]. do 2 (split; [reflexivity|]).
  exact (start_again_runs_nothing
           backtick literal unit caster dumped Columns columnsOf apply someBots
           Columns_Catalogue Columns_Separate
           [("user", ["id"; "legacy"])] emptyFile
           (snd (boot [("user", ["id"; "legacy"])] emptyFile)) Hnames eq_refl).
Defined.

End SyncExamples.

(** ** The compiler on the filters of the specification *)
(** ** More on the filter compiler *)
Section FilterMore.

Import Mysql.

Variable escapeId : string -> string.
Variable escape : value -> string.

Local Abbreviation parse := (parseQuery escapeId escape).
Local Abbreviation loop' := (loop escapeId escape).
Local Abbreviation visit' := (visit escapeId escape).

(** Induction on a value together with the values it holds. *)
Lemma value_nested_ind (P : value -> Prop) :
  P VUndefined -> P VNull -> (forall b, P (VBool b)) -> (forall n, P (VNum n)) ->
  (forall s, P (VStr s)) -> (forall time, P (VDate time)) ->
  (forall source, P (VRegExp source)) ->
  (forall items, Forall P items -> P (VArr items)) ->
  (forall props, Forall (fun entry => P (snd entry)) props -> P (VObj props)) ->
  forall v, P v.
Proof.
  intros Hundefined Hnull Hbool Hnum Hstr Hdate Hregexp Harr Hobj.
  fix IH 1. intros [| |b|n|s|time|source|items|props].
  - exact Hundefined.
  - exact Hnull.
  - apply Hbool.
  - apply Hnum.
  - apply Hstr.
  - apply Hdate.
  - apply Hregexp.
  - apply Harr. induction items as [|item items IHitems]; constructor.
    + apply IH.
    + exact IHitems.
  - apply Hobj. induction props as [|[key v] props IHprops]; constructor.
    + apply IH.
    + exact IHprops.
Qed.

Lemma map_result_Ok {X Y} (f : X -> result Y) (items : list X) :
  Forall (fun x => exists y, f x = Ok y) items ->
  exists ys, map_result f items = Ok ys.
Proof.
  induction 1 as [|x items [y Hy] _ [ys IH]]; simpl.
  - now exists [].
  - rewrite Hy, IH. simpl. now eexists.
Qed.

(** An operator on an operand of its shape gives its condition. *)
Lemma queryOperators_shape escKey prop operand :
  operandShape prop operand = true ->
  match queryOperators escape prop with
  | Some operator => exists condition, operator escKey operand = Ok condition
  | None => True
  end.
Proof.
  unfold operandShape, queryOperators, ownOperator.
  destruct (prop =? "$in").
  { simpl. destruct operand; try discriminate. intros _. unfold createMemberQuery.
    simpl. destruct (negb _); simpl; now eexists. }
  destruct (prop =? "$nin").
  { simpl. destruct operand; try discriminate. intros _. unfold createMemberQuery.
    simpl. destruct (negb _); simpl; now eexists. }
  simpl orb. cbv iota.
  destruct (prop =? "$eq"); [intros _; simpl; now eexists|].
  destruct (prop =? "$ne"); [intros _; simpl; now eexists|].
  destruct (prop =? "$gt"); [intros _; simpl; now eexists|].
  destruct (prop =? "$gte"); [intros _; simpl; now eexists|].
  destruct (prop =? "$lt"); [intros _; simpl; now eexists|].
  destruct (prop =? "$lte"); [intros _; simpl; now eexists|].
  destruct (prop =? "$regex").
  { destruct operand; try discriminate. intros _. simpl. now eexists. }
  destruct (prop =? "$regexFor"); [intros _; simpl; now eexists|].
  destruct (prop =? "$el").
  { destruct operand; try discriminate; intros _; simpl; now eexists. }
  destruct (prop =? "$size").
  { intros _. simpl. destruct (negb (truthy operand)); simpl; now eexists. }
  destruct (prop =? "$bitsAllSet"); [intros _; simpl; now eexists|].
  destruct (prop =? "$bitsAllClear"); [intros _; simpl; now eexists|].
  destruct (prop =? "$bitsAnySet"); [intros _; simpl; now eexists|].
  destruct (prop =? "$bitsAnyClear"); [intros _; simpl; now eexists|].
  unfold inheritedMember, prototypeNames. simpl existsb.
  repeat match goal with
         | |- context [String.eqb prop ?n] => destruct (String.eqb prop n)
         end; simpl; try discriminate; auto.
Qed.

Lemma queryExpression_shape escKey (operators : object) :
  forallb (fun entry => operandShape (fst entry) (snd entry)) operators = true ->
  exists conditions, queryExpression escape escKey operators = Ok conditions.
Proof.
  induction operators as [|[prop operand] operators IH]; simpl; [now eexists|].
  intros H. apply andb_true_iff in H as [Hshape Hrest].
  destruct (IH Hrest) as [more Hmore].
  pose proof (queryOperators_shape escKey prop operand Hshape) as Hoperator.
  destruct (queryOperators escape prop) as [operator|]; [|now exists more].
  destruct Hoperator as [condition ->]. simpl. rewrite Hmore. simpl. now eexists.
Qed.

Lemma fieldQuery_shape key value :
  fieldShape value = true ->
  exists pushed, fieldQuery escapeId escape key value = Ok pushed.
Proof.
  unfold fieldQuery. destruct value; simpl; intros Hshape; try (now eexists).
  - unfold createMemberQuery. simpl. destruct (negb _); simpl; now eexists.
  - now apply queryExpression_shape.
Qed.

(** What the compiler is shown to accept, of a value and of the items of a
    list. *)
Local Abbreviation compiles query :=
  (wellShaped query = true -> exists filter, parse query = Ok filter).

Lemma loop_shapes (props : object) :
  Forall (fun entry =>
            compiles (snd entry)
            /\ forall items, snd entry = VArr items -> Forall (fun q => compiles q) items)
         props ->
  forall conditions,
    shapes wellShaped props = true ->
    exists filter, loop' parse props conditions = Ok filter.
Proof.
  induction 1 as [|[key v] props [Hvalue Hitems] _ IH]; intros conditions; simpl.
  { intros _. now eexists. }
  intros H. apply andb_true_iff in H as [Hentry Hrest].
  unfold entryShape in Hentry. simpl in Hentry, Hvalue, Hitems. unfold visit.
  assert (Hlist : forall items,
             v = VArr items -> forallb wellShaped items = true ->
             exists subs, map_result parse items = Ok subs).
  { intros items Hv Hall. apply map_result_Ok.
    specialize (Hitems items Hv). rewrite forallb_forall in Hall.
    rewrite Forall_forall in *. intros q Hq. exact (Hitems q Hq (Hall q Hq)). }
  destruct (key =? "$not").
  { destruct (Hvalue Hentry) as [sub ->]. now apply IH. }
  destruct (key =? "$and").
  { simpl in Hentry. destruct v; try discriminate.
    destruct (Hlist items eq_refl Hentry) as [subs Hsubs].
    simpl. destruct (negb _); [|now eexists].
    rewrite Hsubs. now apply IH. }
  destruct (key =? "$or").
  { simpl in Hentry. destruct v; try discriminate.
    destruct (Hlist items eq_refl Hentry) as [subs Hsubs].
    simpl has_length. destruct (negb _).
    - rewrite Hsubs. now apply IH.
    - unfold fieldQuery, createMemberQuery. simpl.
      destruct (negb _); simpl; now apply IH. }
  simpl in Hentry. destruct (fieldQuery_shape key v Hentry) as [pushed ->].
  now apply IH.
Qed.

Lemma wellShaped_parses (query : value) : compiles query.
Proof.
  assert (H : compiles query
              /\ forall items, query = VArr items -> Forall (fun q => compiles q) items).
  { induction query as [| | | | | | |items IH|props IH] using value_nested_ind;
      (split; [try discriminate | try discriminate]).
    - intros same [= <-]. revert IH. apply Forall_impl. now intros q [Hq _].
    - intros Hshape. rewrite parseQuery_object. now apply loop_shapes. }
  apply H.
Qed.

(** The conditions only grow in a turn of the loop. *)
Lemma visit_Continue parse0 key value conditions conditions' :
  visit' parse0 key value conditions = Continue conditions' ->
  exists pushed, conditions' = (conditions ++ pushed)%list.
Proof.
  unfold visit.
  destruct (key =? "$not").
  { destruct (parse0 value); [|discriminate]. intros [= <-]. now eexists. }
  destruct (key =? "$and").
  { destruct (has_length value) as [[|]|]; try discriminate.
    destruct value; try discriminate.
    destruct (map_result parse0 items); [|discriminate]. intros [= <-]. now eexists. }
  destruct (if key =? "$or" then has_length value else Ok false) as [[|]|];
    try discriminate.
  - destruct value; try discriminate.
    destruct (map_result parse0 items); [|discriminate]. intros [= <-]. now eexists.
  - destruct (fieldQuery escapeId escape key value); [|discriminate].
    intros [= <-]. now eexists.
Qed.

(** Once the constant false is among the conditions, the loop can only
    return the constant false. *)
Lemma loop_zero parse0 (props : object) :
  forall conditions filter,
    existsb is_zero conditions = true ->
    loop' parse0 props conditions = Ok filter ->
    filter = "0".
Proof.
  induction props as [|[key value] props IH]; intros conditions filter Hzero; simpl.
  - unfold conjunction. destruct conditions; [discriminate|]. rewrite Hzero.
    now intros [= <-].
  - destruct (visit' parse0 key value conditions) as [conditions'| |] eqn:Hvisit.
    + apply visit_Continue in Hvisit as [pushed ->]. apply IH.
      rewrite existsb_app, Hzero. reflexivity.
    + apply visit_Return in Hvisit as (_ & _ & ->). now intros [= <-].
    + discriminate.
Qed.

End FilterMore.

Section FilterMoreClaims.

Import Mysql.

Variable escapeId : string -> string.
Variable escape : value -> string.
Variable resolve : string -> value -> value.

(** X10: a filter that [Query.resolve] hands over as an expression of the
    filter language compiles: [createFilter] returns a filter and does not
    throw.  In such an expression [$not] holds an expression, [$and] and
    [$or] hold lists of expressions, a field holds a shorthand or operators;
    [$in] and [$nin] hold a list, [$regex] a pattern, [$el] a list, a number
    or a string; a property that is no operator is no member of
    [Object.prototype]. *)
Theorem wellShaped_filter_compiles name query :
  wellShaped (resolve name query) = true ->
  exists filter, createFilter escapeId escape resolve name query = Ok filter.
Proof. intros Hshape. unfold createFilter. now apply wellShaped_parses. Qed.

(** X11: an empty list as the shorthand of a field makes the whole filter
    the constant false, whatever stands before and after the field, when the
    filter compiles at all. *)
Theorem empty_membership_makes_filter_false name query before key after filter :
  resolve name query = VObj (before ++ (key, VArr []) :: after) ->
  logical key = false ->
  createFilter escapeId escape resolve name query = Ok filter ->
  filter = "0".
Proof.
  intros Hquery Hkey. unfold createFilter. rewrite Hquery, parseQuery_object.
  clear Hquery. generalize (@nil cond).
  induction before as [|[k v] before IH]; intros conditions; simpl.
  - unfold logical in Hkey.
    apply orb_false_iff in Hkey as [Hkey Hor]. apply orb_false_iff in Hkey as [Hnot Hand].
    unfold visit. rewrite Hnot, Hand, Hor. simpl.
    apply loop_zero. rewrite existsb_app. simpl. apply orb_true_r.
  - destruct (visit escapeId escape _ k v conditions) as [conditions'| |] eqn:Hvisit.
    + apply IH.
    + apply visit_Return in Hvisit as (_ & _ & ->). now intros [= <-].
    + discriminate.
Qed.

End FilterMoreClaims.

(** ** Spread objects *)
Section SpreadFacts.

Import Mysql.

(** [{...o1, ...o2}] has the value of [o2] where [o2] has the property, and
    the value of [o1] elsewhere. *)
Lemma lookup_spread {A : Type} (o2 : list (string * A)) :
  NoDup (keys o2) ->
  forall (o1 : list (string * A)) key,
    lookup key (spread o1 o2)
    = match lookup key o2 with
      | Some v => Some v
      | None => lookup key o1
      end.
Proof.
  unfold spread.
  induction o2 as [|[k v] o2 IH]; intros Hnames o1 key; simpl; [reflexivity|].
  inversion Hnames as [|? ? Hfresh Hrest]; subst.
  rewrite (IH Hrest). destruct (String.eqb_spec k key) as [->|Hother].
  - destruct (lookup key o2) as [w|] eqn:Hlater.
    + exfalso. apply Hfresh. apply lookup_in_keys. now exists w.
    + apply lookup_assign_same.
  - destruct (lookup key o2); [reflexivity|].
    apply lookup_assign_other. congruence.
Qed.

Lemma sameOutside_fresh key v (rest item item' : object) :
  ~ In key (keys item) ->
  sameOutside ((key, v) :: rest) item item' ->
  sameOutside rest item item'.
Proof.
  unfold sameOutside. intros Hfresh Hsame.
  induction Hsame as [|[k w] [k' w'] item item' [Hkey Hvalue] Hsame IH];
    constructor; simpl in *.
  - split; [exact Hkey|]. destruct Hvalue as [Hv|[Hv|Hv]]; auto.
    exfalso. apply Hfresh. now left.
  - apply IH. tauto.
Qed.

Lemma assign_sameOutside key v (rest item item' : object) :
  NoDup (keys item) ->
  sameOutside ((key, v) :: rest) item item' ->
  sameOutside rest (assign key v item) (assign key v item').
Proof.
  intros Hnames Hsame. induction Hsame
    as [|[k w] [k' w'] item item' [Hkey Hvalue] Hsame IH]; simpl in *.
  - constructor; [|constructor]. auto.
  - subst k'. inversion Hnames as [|? ? Hfresh Hrest]; subst.
    destruct (String.eqb_spec k key) as [->|Hother].
    + constructor; [simpl; auto|]. exact (sameOutside_fresh key v rest item item' Hfresh Hsame).
    + constructor; [|now apply IH]. simpl. split; [reflexivity|].
      destruct Hvalue as [Hv|[Hv|Hv]]; auto. congruence.
Qed.

Lemma spread_sameOutside (defaults : object) :
  forall item item' : object,
    NoDup (keys item) ->
    sameOutside defaults item item' ->
    spread item defaults = spread item' defaults.
Proof.
  unfold spread.
  induction defaults as [|[key v] defaults IH]; intros item item' Hnames Hsame; simpl.
  - induction Hsame as [|[k w] [k' w'] item item' [Hkey [Hvalue|[]]] _ IHsame];
      [reflexivity|].
    simpl in *. subst. inversion Hnames; subst. now rewrite IHsame.
  - apply IH; [now apply NoDup_keys_assign | now apply assign_sameOutside].
Qed.

End SpreadFacts.

(** ** More on the query facade *)
Section FacadeMore.

Import Mysql.

Variable escapeId : string -> string.
Variable escape : value -> string.
Variable resolve : string -> value -> value.
Variable server : Type.
Variable execute : string -> list value -> server -> result value * server.
Variable inferFields : string -> value -> list string.
Variable joinKeys : list string -> string.
Variable formatValues : string -> object -> list string -> list value.
Variable Tables_create : string -> object.
Variable Tables_config : Tables.Registry.

Local Abbreviation createFilter' := (createFilter escapeId escape resolve).
Local Abbreviation get' := (get escapeId escape resolve execute).
Local Abbreviation set' := (set escapeId escape resolve execute).
Local Abbreviation remove' := (remove escapeId escape resolve execute).
Local Abbreviation create' := (create execute joinKeys formatValues Tables_create).
Local Abbreviation upsert' :=
  (upsert escapeId execute joinKeys formatValues Tables_create Tables_config).

(** X12: a filter that does not compile reaches the server with no
    statement: [get], [set] and [remove] throw the error of the compiler and
    leave the database instance as it was. *)
Theorem uncompiled_filter_sends_nothing
  resolveModifier name q modifier data e (this : Database server) :
  createFilter' name q = Throw e ->
  get' resolveModifier inferFields joinKeys name q modifier this = (Throw e, this)
  /\ set' name q data this = (Throw e, this)
  /\ remove' name q this = (Throw e, this).
Proof.
  intros Hfilter. unfold get, set, remove, bind, lift.
  rewrite Hfilter. repeat split.
Qed.

(** X13: when the server answers the [INSERT] with a header, [create] sends
    that one statement and returns the row it has inserted: [id] is the
    [insertId] of the header, every other field that was given has the given
    value, and a field that was not given has the default of the table. *)
Theorem create_returns_given_over_defaults
  name data header (this : Database server) :
  NoDup (keys data) ->
  let row := spread (Tables_create name) data in
  let sql := "INSERT INTO ?? (" ++ joinKeys (keys row) ++ ") VALUES ("
             ++ String.concat ", " (map (fun _ => "?") (keys row)) ++ ")" in
  let values := VStr name :: formatValues name row (keys row) in
  fst (execute sql values (db this)) = Ok (VObj header) ->
  exists created,
    fst (create' name data this) = Ok (VObj created)
    /\ sent (snd (create' name data this)) = (sent this ++ [(sql, values)])%list
    /\ lookup "id" created
       = Some (match lookup "insertId" header with Some v => v | None => VUndefined end)
    /\ forall key,
         key <> "id" ->
         lookup key created
         = match lookup key data with
           | Some v => Some v
           | None => lookup key (Tables_create name)
           end.
Proof.
  intros Hnames row sql values Hanswer.
  unfold create, bind, query, lift, ret. fold row. fold sql. fold values.
  destruct (execute sql values (db this)) as [answer server'].
  simpl in Hanswer. subst answer. simpl.
  exists (assign "id"
            (match lookup "insertId" header with Some v => v | None => VUndefined end) row).
  repeat split.
  - apply lookup_assign_same.
  - intros key Hkey. rewrite lookup_assign_other by exact Hkey.
    now apply lookup_spread.
Qed.

(** X14: [upsert] sends the default of the table in every field that has
    one, whatever value the row gives there: two batches whose rows differ
    only in such fields are the same to it. *)
Theorem upsert_sends_defaults_over_given
  name (data data' : list object) keys (this : Database server) :
  Forall (fun item => NoDup (JS.keys item)) data ->
  Forall2 (sameOutside (Tables_create name)) data data' ->
  upsert' name data keys this = upsert' name data' keys this.
Proof.
  intros Hnames Hsame.
  assert (Hspread : map (fun item => spread item (Tables_create name)) data
                    = map (fun item => spread item (Tables_create name)) data').
  { induction Hsame as [|item item' data data' Hitem _ IH]; [reflexivity|].
    inversion Hnames; subst. simpl. rewrite IH by assumption.
    now rewrite (spread_sameOutside _ item item'). }
  unfold upsert. destruct Hsame as [|item item' data data' Hitem Hsame];
    [reflexivity|].
  now rewrite Hspread.
Qed.

(** X15: without conflict keys, [upsert] reads the primary key of the
    table: for a table that has no config it throws before anything is sent,
    unless the batch is empty, in which case it returns at once. *)
Theorem upsert_without_config name (data : list object) (this : Database server) :
  lookup name Tables_config = None ->
  snd (upsert' name data None this) = this
  /\ (data = [] -> fst (upsert' name data None this) = Ok VUndefined)
  /\ (data <> [] -> exists e, fst (upsert' name data None this) = Throw e).
Proof.
  intros Hconfig. unfold upsert. destruct data as [|item data].
  - repeat split. intros H. now contradiction H.
  - unfold bind, lift, conflictKeys, primaryOf. rewrite Hconfig. simpl.
    repeat split; [discriminate|]. intros _. now eexists.
Qed.

End FacadeMore.

Section FacadeMoreExamples.

Import Mysql Samples.

Lemma uncompiled_filter_sends_nothing_witness :
  createFilter backtick literal expression "user" (VObj [("a", VObj [("$el", VObj [])])])
  = Throw (TypeError "query expr under $el is not supported")
  /\ get backtick literal expression silent wholeRow noFields joined
       "user" (VObj [("a", VObj [("$el", VObj [])])]) VUndefined fresh
     = (Throw (TypeError "query expr under $el is not supported"), fresh)
  /\ set backtick literal expression silent
       "user" (VObj [("a", VObj [("$el", VObj [])])]) [("name", VStr "x")] fresh
     = (Throw (TypeError "query expr under $el is not supported"), fresh)
  /\ remove backtick literal expression silent
       "user" (VObj [("a", VObj [("$el", VObj [])])]) fresh
     = (Throw (TypeError "query expr under $el is not supported"), fresh).
Proof.
  split; [reflexivity|].
  exact (uncompiled_filter_sends_nothing backtick literal expression unit silent
           noFields joined wholeRow "user" (VObj [("a", VObj [("$el", VObj [])])])
           VUndefined [("name", VStr "x")]
           (TypeError "query expr under $el is not supported") fresh eq_refl).
Defined.

Lemma create_returns_given_over_defaults_witness :
  NoDup (keys [("name", VStr "x"); ("authority", VNum 4)])
  /\ fst (inserting
            ("INSERT INTO ?? (`authority`,`name`) VALUES (?, ?)")
            [VStr "user"; VNum 4; VStr "x"] tt)
     = Ok (VObj [("affectedRows", VNum 1); ("insertId", VNum 7)])
  /\ exists created,
       fst (create inserting joined valuesOf defaults "user"
              [("name", VStr "x"); ("authority", VNum 4)] fresh)
       = Ok (VObj created)
       /\ sent (snd (create inserting joined valuesOf defaults "user"
                       [("name", VStr "x"); ("authority", VNum 4)] fresh))
          = [("INSERT INTO ?? (`authority`,`name`) VALUES (?, ?)",
              [VStr "user"; VNum 4; VStr "x"])]
       /\ lookup "id" created = Some (VNum 7)
       /\ forall key,
            key <> "id" ->
            lookup key created
            = match lookup key [("name", VStr "x"); ("authority", VNum 4)] with
              | Some v => Some v
              | None => lookup key (defaults "user")
              end.
Proof.
  assert (Hnames : NoDup (keys [("name", VStr "x"); ("authority", VNum 4)])).
  { simpl. repeat constructor; simpl; intuition discriminate. }
  split; [exact Hnames|]. split; [reflexivity|].
  exact (create_returns_given_over_defaults unit inserting joined valuesOf defaults
           "user" [("name", VStr "x"); ("authority", VNum 4)]
           [("affectedRows", VNum 1); ("insertId", VNum 7)] fresh Hnames eq_refl).
Defined.

Lemma upsert_sends_defaults_over_given_witness :
  Forall (fun item => NoDup (keys item)) [[("id", VNum 1); ("authority", VNum 4)]]
  /\ Forall2 (sameOutside (defaults "user"))
       [[("id", VNum 1); ("authority", VNum 4)]] [[("id", VNum 1); ("authority", VNum 9)]]
  /\ upsert backtick silent joined valuesOf defaults registry
       "user" [[("id", VNum 1); ("authority", VNum 4)]] None fresh
     = upsert backtick silent joined valuesOf defaults registry
         "user" [[("id", VNum 1); ("authority", VNum 9)]] None fresh.
Proof.
  assert (Hnames : Forall (fun item => NoDup (keys item))
                     [[("id", VNum 1); ("authority", VNum 4)]]).
  { repeat constructor; simpl; intuition discriminate. }
  assert (Hsame : Forall2 (sameOutside (defaults "user"))
                    [[("id", VNum 1); ("authority", VNum 4)]]
                    [[("id", VNum 1); ("authority", VNum 9)]]).
  { constructor; [|constructor]. unfold sameOutside.
    constructor; [split; [reflexivity | left; reflexivity]|].
    constructor; [split; [reflexivity | right; simpl; auto]|]. constructor. }
  split; [exact Hnames|]. split; [exact Hsame|].
  exact (upsert_sends_defaults_over_given backtick unit silent joined valuesOf defaults
           registry "user" [[("id", VNum 1); ("authority", VNum 4)]]
           [[("id", VNum 1); ("authority", VNum 9)]] None fresh Hnames Hsame).
Defined.

Lemma upsert_without_config_witness :
  lookup "channel" registry = None
  /\ snd (upsert backtick silent joined valuesOf defaults registry
            "channel" [[("id", VNum 1)]] None fresh) = fresh
  /\ ([[("id", VNum 1)]] = [] ->
      fst (upsert backtick silent joined valuesOf defaults registry
             "channel" [[("id", VNum 1)]] None fresh) = Ok VUndefined)
  /\ ([[("id", VNum 1)]] <> [] ->
      exists e,
        fst (upsert backtick silent joined valuesOf defaults registry
               "channel" [[("id", VNum 1)]] None fresh) = Throw e).
Proof.
  split; [reflexivity|].
  exact (upsert_without_config backtick unit silent joined valuesOf defaults registry
           "channel" [[("id", VNum 1)]] fresh eq_refl).
Defined.

End FacadeMoreExamples.

Section FilterMoreExamples.

Import Mysql Samples.

Lemma wellShaped_filter_compiles_witness :
  wellShaped
    (expression "user"
       (VObj [("$not", VObj [("a", VNum 1)]);
              ("$or", VArr [VObj [("b", VStr "x")]; VObj [("c", VObj [("$el", VNum 3)])]]);
              ("d", VObj [("$in", VArr [VNum 1; VNum 2]); ("$foo", VNull)])]))
  = true
  /\ exists filter,
       createFilter backtick literal expression "user"
         (VObj [("$not", VObj [("a", VNum 1)]);
                ("$or", VArr [VObj [("b", VStr "x")]; VObj [("c", VObj [("$el", VNum 3)])]]);
                ("d", VObj [("$in", VArr [VNum 1; VNum 2]); ("$foo", VNull)])])
       = Ok filter.
Proof.
  split; [reflexivity|].
  exact (wellShaped_filter_compiles backtick literal expression "user"
           (VObj [("$not", VObj [("a", VNum 1)]);
                  ("$or", VArr [VObj [("b", VStr "x")]; VObj [("c", VObj [("$el", VNum 3)])]]);
                  ("d", VObj [("$in", VArr [VNum 1; VNum 2]); ("$foo", VNull)])])
           eq_refl).
Defined.

Lemma empty_membership_makes_filter_false_witness :
  expression "user" (VObj [("a", VNum 1); ("b", VArr []); ("c", VStr "x")])
  = VObj ([("a", VNum 1)] ++ ("b", VArr []) :: [("c", VStr "x")])
  /\ logical "b" = false
  /\ createFilter backtick literal expression "user"
       (VObj [("a", VNum 1); ("b", VArr []); ("c", VStr "x")]) = Ok "0"
  /\ "0" = "0".
Proof.
  split; [reflexivity|]. split; [reflexivity|]. split; [reflexivity|].
  exact (empty_membership_makes_filter_false backtick literal expression "user"
           (VObj [("a", VNum 1); ("b", VArr []); ("c", VStr "x")])
           [("a", VNum 1)] "b" [("c", VStr "x")] "0" eq_refl eq_refl eq_refl).
Defined.

End FilterMoreExamples.

(** ** The WebSocket client *)
Section AdapterFacts.

Import Adapter.

Variable Socket : Type.
Variable url : Socket -> string.
Variable options : WsClientOptions.

Local Abbreviation Client := (Adapter.Client Socket).
Local Abbreviation step' := (step url options).
Local Abbreviation run' := (run url options).
Local Abbreviation timeouts c := (List.length (filter isTimeout (done c))).
Local Abbreviation budget c := (Z.to_nat (retryTimes options - _retryCount c)).

Lemma run_app (first second : list (Event Socket)) (c : Client) :
  run' (first ++ second)%list c = run' second (run' first c).
Proof. apply fold_left_app. Qed.

Lemma filter_last {X : Type} (q : X -> bool) (l : list X) x :
  filter q (l ++ [x])%list = (filter q l ++ if q x then [x] else [])%list.
Proof. rewrite filter_app. simpl. now destruct (q x). Qed.

(** A turn of a failing client uses up what it sets of timers. *)
Lemma step_budget (c : Client) e :
  failing e = true ->
  timeouts (step' c e) + budget (step' c e) <= timeouts c + budget c.
Proof.
  destruct e as [s appOpen reason| |s| |reason|]; try discriminate; simpl.
  - intros HappOpen. apply negb_true_iff in HappOpen as ->.
    unfold onClose. simpl. destruct (_listening c); simpl; [|lia].
    destruct (Z.leb_spec (retryTimes options) (_retryCount c)); simpl.
    + rewrite filter_last. simpl. rewrite app_nil_r. lia.
    + rewrite filter_last, length_app. simpl. lia.
  - intros _. unfold onTimeout. destruct (_listening c); simpl; [|lia].
    rewrite filter_last. simpl. rewrite app_nil_r. lia.
  - intros _. unfold stop. simpl. destruct (socket c); simpl; [|lia].
    rewrite filter_last. simpl. rewrite app_nil_r. lia.
Qed.

(** [n] failures of a listening client that has retries left. *)
Lemma run_failures s appOpen reason (n : nat) :
  forall c : Client,
    _listening c = true ->
    (_retryCount c + Z.of_nat n <= retryTimes options)%Z ->
    _listening (run' (failures s appOpen reason n) c) = true
    /\ _retryCount (run' (failures s appOpen reason n) c) = (_retryCount c + Z.of_nat n)%Z
    /\ done (run' (failures s appOpen reason n) c)
       = (done c ++ List.concat (repeat [SetTimeout (retryInterval options); Prepare] n))%list.
Proof.
  unfold failures. induction n as [|n IH]; intros c Hlistening Hcount.
  - simpl. rewrite app_nil_r. split; [exact Hlistening|]. split; [lia | reflexivity].
  - change (List.concat (repeat ?l (S n))) with (l ++ List.concat (repeat l n))%list.
    rewrite run_app.
    set (c1 := run' [Closed s appOpen reason; TimedOut] c).
    assert (H1 : _listening c1 = true
                 /\ _retryCount c1 = (_retryCount c + 1)%Z
                 /\ done c1 = (done c ++ [SetTimeout (retryInterval options); Prepare])%list).
    { unfold c1. simpl. unfold onClose. simpl. rewrite Hlistening. simpl.
      destruct (Z.leb_spec (retryTimes options) (_retryCount c)); [lia|].
      unfold onTimeout. simpl. rewrite ?Hlistening. simpl.
      rewrite <- app_assoc. split; [reflexivity|]. split; reflexivity. }
    destruct H1 as (Hl1 & Hc1 & Hd1).
    destruct (IH c1 Hl1) as (Hl & Hc & Hd); [lia|].
    rewrite Hl, Hc, Hd, Hc1, Hd1, <- app_assoc. split; [reflexivity|]. split; [lia | reflexivity].
Qed.

(** The close that finds no retry left while the app is not open. *)
Lemma close_rejects s reason (c : Client) :
  _listening c = true ->
  (retryTimes options <= _retryCount c)%Z ->
  done (step' c (Closed s false reason))
  = (done c ++ [Reject (NewError (messageOf url s reason))])%list.
Proof.
  intros Hlistening Hcount. simpl. unfold onClose. simpl. rewrite Hlistening. simpl.
  destruct (Z.leb_spec (retryTimes options) (_retryCount c)); [reflexivity | lia].
Qed.

(** X16: while the app is not open and no socket opens, a client sets no
    more timers than it has retries left, whatever happens in whatever
    order: sockets close, timers go off, [stop] is called. *)
Theorem retries_are_bounded (events : list (Event Socket)) (c : Client) :
  forallb failing events = true ->
  timeouts (run' events c) <= timeouts c + budget c.
Proof.
  revert c. induction events as [|e events IH]; intros c Hall; [simpl; lia|].
  simpl in Hall. apply andb_true_iff in Hall as [He Hall].
  change (run' (e :: events) c) with (run' events (step' c e)).
  specialize (IH (step' c e) Hall). pose proof (step_budget c e He). lia.
Qed.

(** X17: a listening client that has used no retry answers failure after
    failure, while the app is not open, with one timer of [retryInterval]
    and the connection that follows it, [retryTimes] times; the next close
    rejects with an error whose message is the text of the reason of the
    close.  A buffer as the reason is never falsy, so an empty one gives the
    empty message; only for the empty string as the reason the message names
    the address of the socket instead. *)
Theorem gives_up_after_retryTimes (s : Socket) reason (c : Client) :
  _listening c = true ->
  _retryCount c = 0%Z ->
  (0 <= retryTimes options)%Z ->
  done (run' (failures s false reason (Z.to_nat (retryTimes options))
              ++ [Closed s false reason])%list c)
  = (done c
     ++ List.concat (repeat [SetTimeout (retryInterval options); Prepare]
                       (Z.to_nat (retryTimes options)))
     ++ [Reject (NewError (messageOf url s reason))])%list.
Proof.
  intros Hlistening Hcount Htimes. rewrite run_app.
  destruct (run_failures s false reason (Z.to_nat (retryTimes options)) c Hlistening)
    as (Hl & Hc & Hd); [lia|].
  change (run' [Closed s false reason] ?c0) with (step' c0 (Closed s false reason)).
  rewrite close_rejects; [|exact Hl | lia].
  now rewrite Hd, <- app_assoc.
Qed.

(** X18: a socket that opens gives the client all its retries back: after
    it, [retryTimes] failures are retried again before the next one
    rejects. *)
Theorem open_restores_the_retries (opened s : Socket) reason (c : Client) :
  _listening c = true ->
  (0 <= retryTimes options)%Z ->
  done (run' (Opened opened
              :: failures s false reason (Z.to_nat (retryTimes options))
              ++ [Closed s false reason])%list c)
  = (done c ++ [Connect]
     ++ List.concat (repeat [SetTimeout (retryInterval options); Prepare]
                       (Z.to_nat (retryTimes options)))
     ++ [Reject (NewError (messageOf url s reason))])%list.
Proof.
  intros Hlistening Htimes.
  change (run' (Opened opened :: ?l) c) with (run' l (onOpen opened c)).
  rewrite run_app.
  destruct (run_failures s false reason (Z.to_nat (retryTimes options))
              (onOpen opened c) Hlistening)
    as (Hl & Hc & Hd); [simpl; lia|].
  change (run' [Closed s false reason] ?c0) with (step' c0 (Closed s false reason)).
  rewrite close_rejects; [|exact Hl | simpl in Hc; lia].
  rewrite Hd. simpl done. now rewrite <- !app_assoc.
Qed.

(** X19: while the app is open and [this.connect(bot)] is not rejected, the
    client never rejects, whatever happens in whatever order. *)
Theorem open_app_never_rejects (events : list (Event Socket)) (c : Client) :
  forallb whileOpen events = true ->
  filter isReject (done (run' events c)) = filter isReject (done c).
Proof.
  revert c. induction events as [|e events IH]; intros c Hall; [reflexivity|].
  simpl in Hall. apply andb_true_iff in Hall as [He Hall].
  change (run' (e :: events) c) with (run' events (step' c e)).
  rewrite (IH _ Hall). clear IH Hall.
  destruct e as [s appOpen reason| |s| |reason|]; simpl in *; try discriminate.
  - subst appOpen. unfold onClose. simpl. destruct (_listening c); simpl; [|reflexivity].
    destruct (_ <=? _)%Z; simpl; rewrite filter_last; simpl; apply app_nil_r.
  - unfold onTimeout. destruct (_listening c); simpl; [|reflexivity].
    rewrite filter_last. apply app_nil_r.
  - rewrite filter_last. apply app_nil_r.
  - rewrite filter_last. apply app_nil_r.
  - unfold stop. simpl. destruct (socket c); simpl; [|reflexivity].
    rewrite filter_last. apply app_nil_r.
Qed.

(** X20: once a listening client has no retry left, every further failure
    while the app is open is retried after [retryLazy]. *)
Theorem open_app_retries_lazily (s : Socket) reason (n : nat) (c : Client) :
  _listening c = true ->
  (retryTimes options <= _retryCount c)%Z ->
  done (run' (failures s true reason n) c)
  = (done c ++ List.concat (repeat [SetTimeout (retryLazy options); Prepare] n))%list.
Proof.
  revert c.
  unfold failures. induction n as [|n IH]; intros c Hlistening Hcount.
  - simpl. now rewrite app_nil_r.
  - change (List.concat (repeat ?l (S n))) with (l ++ List.concat (repeat l n))%list.
    rewrite run_app.
    set (c1 := run' [Closed s true reason; TimedOut] c).
    assert (H1 : _listening c1 = true
                 /\ _retryCount c1 = (_retryCount c + 1)%Z
                 /\ done c1 = (done c ++ [SetTimeout (retryLazy options); Prepare])%list).
    { unfold c1. simpl. unfold onClose. simpl. rewrite Hlistening. simpl.
      destruct (Z.leb_spec (retryTimes options) (_retryCount c)); [|lia].
      unfold onTimeout. simpl. rewrite ?Hlistening. simpl.
      rewrite <- app_assoc. split; [reflexivity|]. split; reflexivity. }
    destruct H1 as (Hl1 & Hc1 & Hd1).
    rewrite (IH c1 Hl1) by lia. now rewrite Hd1, <- app_assoc.
Qed.

(** X21: after [stop], the sockets that close and the timers that go off
    make the client ask nothing: no timer is set, no connection is prepared
    and nothing is rejected. *)
Theorem nothing_is_retried_after_stop (events : list (Event Socket)) (c : Client) :
  forallb pending events = true ->
  done (run' events (stop c)) = done (stop c)
  /\ _listening (run' events (stop c)) = false.
Proof.
  assert (Hstopped : _listening (stop c) = false).
  { unfold stop. simpl. now destruct (socket c). }
  revert Hstopped. generalize (stop c). clear c.
  induction events as [|e events IH]; intros c Hstopped Hall; [simpl; auto|].
  simpl in Hall. apply andb_true_iff in Hall as [He Hall].
  change (run' (e :: events) c) with (run' events (step' c e)).
  assert (Hstep : done (step' c e) = done c /\ _listening (step' c e) = false).
  { destruct e as [s appOpen reason| |s| |reason|]; simpl in *; try discriminate.
    - unfold onClose. simpl. rewrite Hstopped. simpl. auto.
    - unfold onTimeout. rewrite Hstopped. auto. }
  destruct Hstep as [Hdone Hlistening].
  destruct (IH (step' c e) Hlistening Hall) as [H1 H2].
  rewrite H1, H2, Hdone. auto.
Qed.

(** X22: [stop] closes the socket of the bot only; when no socket has
    opened yet it closes nothing, and the socket that opens afterwards is
    taken as the socket of the bot and connected, although the client is
    not listening any more. *)
Theorem socket_opened_after_stop_is_kept (s : Socket) (c : Client) :
  socket c = None ->
  _listening (run' [Stopped; Opened s; Connected] c) = false
  /\ socket (run' [Stopped; Opened s; Connected] c) = Some s
  /\ status (run' [Stopped; Opened s; Connected] c) = GOOD
  /\ done (run' [Stopped; Opened s; Connected] c) = (done c ++ [Connect; Resolve])%list.
Proof.
  intros Hsocket. simpl. unfold stop. simpl. rewrite Hsocket. simpl.
  rewrite <- app_assoc. repeat split.
Qed.

End AdapterFacts.

Section AdapterExamples.

Import Adapter Samples.

Lemma retries_are_bounded_witness :
  forallb failing
    [Closed "ws://h/a" false (Text ""); TimedOut; Closed "ws://h/a" false (Text "gone"); TimedOut;
     Closed "ws://h/a" false (Text ""); Stopped; TimedOut] = true
  /\ List.length
       (filter isTimeout
          (done (run address twice
                   [Closed "ws://h/a" false (Text ""); TimedOut; Closed "ws://h/a" false (Text "gone");
                    TimedOut; Closed "ws://h/a" false (Text ""); Stopped; TimedOut]
                   (start idle))))
     <= List.length (filter isTimeout (done (start idle)))
        + Z.to_nat (retryTimes twice - _retryCount (start idle)).
Proof.
  split; [reflexivity|].
  exact (retries_are_bounded string address twice
           [Closed "ws://h/a" false (Text ""); TimedOut; Closed "ws://h/a" false (Text "gone");
            TimedOut; Closed "ws://h/a" false (Text ""); Stopped; TimedOut]
           (start idle) eq_refl).
Defined.

Lemma gives_up_after_retryTimes_witness :
  _listening (start idle) = true
  /\ _retryCount (start idle) = 0%Z
  /\ (0 <= retryTimes twice)%Z
  /\ done (run address twice
             (failures "ws://h/a" false (Bytes "") (Z.to_nat (retryTimes twice))
              ++ [Closed "ws://h/a" false (Bytes "")])%list (start idle))
     = [Prepare; SetTimeout 5000; Prepare; SetTimeout 5000; Prepare;
        Reject (NewError "")]
  /\ done (run address twice
             (failures "ws://h/a" false (Text "") (Z.to_nat (retryTimes twice))
              ++ [Closed "ws://h/a" false (Text "")])%list (start idle))
     = [Prepare; SetTimeout 5000; Prepare; SetTimeout 5000; Prepare;
        Reject (NewError "failed to connect to ws://h/a")].
Proof.
  assert (Htimes : (0 <= retryTimes twice)%Z) by (simpl; lia).
  split; [reflexivity|]. split; [reflexivity|]. split; [exact Htimes|].
  split.
  - exact (gives_up_after_retryTimes string address twice "ws://h/a" (Bytes "")
             (start idle) eq_refl eq_refl Htimes).
  - exact (gives_up_after_retryTimes string address twice "ws://h/a" (Text "")
             (start idle) eq_refl eq_refl Htimes).
Defined.

Lemma open_restores_the_retries_witness :
  _listening (start idle) = true
  /\ (0 <= retryTimes twice)%Z
  /\ done (run address twice
             (Opened "ws://h/a"
              :: failures "ws://h/a" false (Text "gone") (Z.to_nat (retryTimes twice))
              ++ [Closed "ws://h/a" false (Text "gone")])%list (start idle))
     = [Prepare; Connect; SetTimeout 5000; Prepare; SetTimeout 5000; Prepare;
        Reject (NewError "gone")].
Proof.
  assert (Htimes : (0 <= retryTimes twice)%Z) by (simpl; lia).
  split; [reflexivity|]. split; [exact Htimes|].
  exact (open_restores_the_retries string address twice "ws://h/a" "ws://h/a" (Text "gone")
           (start idle) eq_refl Htimes).
Defined.

Lemma open_app_never_rejects_witness :
  forallb whileOpen
    [Closed "ws://h/a" true (Text ""); TimedOut; Closed "ws://h/a" true (Text ""); TimedOut;
     Closed "ws://h/a" true (Text ""); TimedOut; Opened "ws://h/a"; Connected] = true
  /\ filter isReject
       (done (run address twice
                [Closed "ws://h/a" true (Text ""); TimedOut; Closed "ws://h/a" true (Text ""); TimedOut;
                 Closed "ws://h/a" true (Text ""); TimedOut; Opened "ws://h/a"; Connected]
                (start idle)))
     = filter isReject (done (start idle)).
Proof.
  split; [reflexivity|].
  exact (open_app_never_rejects string address twice
           [Closed "ws://h/a" true (Text ""); TimedOut; Closed "ws://h/a" true (Text ""); TimedOut;
            Closed "ws://h/a" true (Text ""); TimedOut; Opened "ws://h/a"; Connected]
           (start idle) eq_refl).
Defined.

Lemma open_app_retries_lazily_witness :
  _listening (run address twice (failures "ws://h/a" true (Text "") 2) (start idle)) = true
  /\ (retryTimes twice
      <= _retryCount (run address twice (failures "ws://h/a" true (Text "") 2) (start idle)))%Z
  /\ done (run address twice (failures "ws://h/a" true (Text "") 3)
             (run address twice (failures "ws://h/a" true (Text "") 2) (start idle)))
     = [Prepare; SetTimeout 5000; Prepare; SetTimeout 5000; Prepare;
        SetTimeout 60000; Prepare; SetTimeout 60000; Prepare; SetTimeout 60000; Prepare].
Proof.
  assert (Hcount : (retryTimes twice
                    <= _retryCount (run address twice (failures "ws://h/a" true (Text "") 2)
                                      (start idle)))%Z) by (simpl; lia).
  split; [reflexivity|]. split; [exact Hcount|].
  exact (open_app_retries_lazily string address twice "ws://h/a" (Text "") 3
           (run address twice (failures "ws://h/a" true (Text "") 2) (start idle))
           eq_refl Hcount).
Defined.

Lemma nothing_is_retried_after_stop_witness :
  forallb pending [Closed "ws://h/a" false (Text ""); TimedOut; TimedOut] = true
  /\ done (run address twice [Closed "ws://h/a" false (Text ""); TimedOut; TimedOut]
             (stop (onOpen "ws://h/a" (start idle))))
     = [Prepare; Connect; CloseSocket "ws://h/a"]
  /\ _listening (run address twice [Closed "ws://h/a" false (Text ""); TimedOut; TimedOut]
                   (stop (onOpen "ws://h/a" (start idle)))) = false.
Proof.
  split; [reflexivity|].
  exact (nothing_is_retried_after_stop string address twice
           [Closed "ws://h/a" false (Text ""); TimedOut; TimedOut]
           (onOpen "ws://h/a" (start idle)) eq_refl).
Defined.

Lemma socket_opened_after_stop_is_kept_witness :
  socket (start idle) = None
  /\ _listening (run address twice [Stopped; Opened "ws://h/a"; Connected] (start idle))
     = false
  /\ socket (run address twice [Stopped; Opened "ws://h/a"; Connected] (start idle))
     = Some "ws://h/a"
  /\ status (run address twice [Stopped; Opened "ws://h/a"; Connected] (start idle)) = GOOD
  /\ done (run address twice [Stopped; Opened "ws://h/a"; Connected] (start idle))
     = [Prepare; Connect; Resolve].
Proof.
  split; [reflexivity|].
  exact (socket_opened_after_stop_is_kept string address twice "ws://h/a" (start idle)
           eq_refl).
Defined.

End AdapterExamples.

Section FilterExamples.

Import Mysql Samples.

Example equality_and_comparison :
  createFilter backtick literal expression "user"
    (VObj [("a", VNum 1); ("b", VObj [("$gt", VNum 2)])])
  = Ok "`a` = 1 && `b` > 2".
Proof. reflexivity. Qed.

Example empty_membership_is_false :
  createFilter backtick literal expression "user"
    (VObj [("a", VNum 1); ("b", VObj [("$in", VArr [])])])
  = Ok "0".
Proof. reflexivity. Qed.

Example unknown_operator_is_true :
  createFilter backtick literal expression "user" (VObj [("a", VObj [("$foo", VNum 1)])])
  = Ok "1".
Proof. reflexivity. Qed.

Example negation_and_disjunction :
  createFilter backtick literal expression "user"
    (VObj [("$not", VObj [("a", VNum 1)]);
           ("$or", VArr [VObj [("b", VStr "x")]; VObj [("c", VObj [("$el", VNum 3)])]])])
  = Ok "!(`a` = 1) && (`b` = 'x' || FIND_IN_SET(3, `c`))".
Proof. reflexivity. Qed.

Example el_object_throws :
  createFilter backtick literal expression "user" (VObj [("a", VObj [("$el", VObj [])])])
  = Throw (TypeError "query expr under $el is not supported").
Proof. reflexivity. Qed.

(** An error at a key before the empty [$and] is raised all the same. *)
Example error_before_empty_and_is_raised :
  createFilter backtick literal expression "user"
    (VObj [("x", VObj [("$in", VStr "ab")]); ("$and", VArr []);
           ("tags", VObj [("$el", VObj [])])])
  = Throw (TypeError "value.map is not a function").
Proof. reflexivity. Qed.

End FilterExamples.
